(** * The freehand "draw" shape utilities of tldraw (src/lib/shape-utils/draw.tsx)

    A shallow embedding of the draw shape's geometry engine: bounds with their
    identity-keyed cache, rotated bounds, point and brush hit tests, the resize
    transform, style application and the render-time outline path.

    JavaScript numbers are kept abstract behind the class [Number]; the
    embedding is written once and is run on two instances: IEEE-754 binary64
    ([float], what the program computes with) and the real numbers ([R], the
    exact arithmetic that the algebraic properties are about).

    JavaScript objects that are compared or cached by identity (shapes and
    their [points] arrays) live in an explicit heap and are named by
    locations. *)

From Stdlib Require Import ZArith QArith Reals Lra.
From Stdlib Require Uint63 PrimFloat.
From stdpp Require Import gmap strings list.

(** ** Numbers *)

(** The arithmetic of a JavaScript number that the module (and the helpers it
    imports) uses: literals, [+ - * /], [<], [<=], [===] and three functions
    of [Math]. *)
Class Number (num : Type) := {
  lit : Q -> num;
  nadd : num -> num -> num;
  nsub : num -> num -> num;
  nmul : num -> num -> num;
  ndiv : num -> num -> num;
  nlt : num -> num -> bool;
  nle : num -> num -> bool;
  nseq : num -> num -> bool;
  Math_sqrt : num -> num;
  Math_sin : num -> num;
  Math_cos : num -> num
}.

Declare Scope js_scope.
Delimit Scope js_scope with js.
Notation "a + b" := (nadd a b) : js_scope.
Notation "a - b" := (nsub a b) : js_scope.
Notation "a * b" := (nmul a b) : js_scope.
Notation "a / b" := (ndiv a b) : js_scope.
Notation "a <? b" := (nlt a b) : js_scope.
Notation "a <=? b" := (nle a b) : js_scope.
Notation "a === b" := (nseq a b) (at level 70, no associativity) : js_scope.

(** ** Data *)

Section Data.
Context {num : Type}.

(** A [number[]] used as a vector: [[x, y]] or [[x, y, p]]. Entries past the
    third are never read by the module. *)
Inductive Vec : Type :=
  | V2 (x y : num)
  | V3 (x y p : num).

Definition vx (v : Vec) : num := match v with V2 x _ | V3 x _ _ => x end.
Definition vy (v : Vec) : num := match v with V2 _ y | V3 _ y _ => y end.

(** [v[2]]: the third entry, [None] for [undefined]. *)
Definition third (v : Vec) : option num :=
  match v with V2 _ _ => None | V3 _ _ p => Some p end.

(** The entries of the array, in order. *)
Definition components (v : Vec) : list num :=
  match v with V2 x y => [x; y] | V3 x y p => [x; y; p] end.

(** Modelled from the spec: the [Bounds] type of [types] (not under src/), the
    axis-aligned box [{minX, minY, width, height}] of the glossary; these are
    the four fields draw.tsx reads. *)
Record Bounds : Type := mkBounds {
  minX : num;
  minY : num;
  width : num;
  height : num
}.

(** Modelled from the spec: the [DashStyle] enumeration of [types]; draw.tsx
    names only [DashStyle.Solid]. *)
Inductive DashStyle : Type := Solid | Dashed | Dotted.

(** Modelled from the spec: [ShapeStyles] of [types]: stroke width category,
    colour, dash and fill. The colour and size enumerations are string-valued. *)
Record ShapeStyles : Type := mkStyles {
  color : string;
  size : string;
  dash : DashStyle;
  isFilled : bool
}.

(** [Partial<ShapeStyles>]: every key may be absent. *)
Record PartialStyles : Type := mkPartial {
  p_color : option string;
  p_size : option string;
  p_dash : option DashStyle;
  p_isFilled : option bool
}.

(** The object spread [{ ...a, ...b }] on styles: a key of [b] wins. *)
Definition spreadStyles (a : ShapeStyles) (b : PartialStyles) : ShapeStyles :=
  {| color := default (color a) (p_color b);
     size := default (size a) (p_size b);
     dash := default (dash a) (p_dash b);
     isFilled := default (isFilled a) (p_isFilled b) |}.

(** What [getShapeStyle] resolves a style to: concrete SVG values. The
    stroke width is numeric, so the unary [+] that draw.tsx applies to it is
    the identity. *)
Record SvgStyle : Type := mkSvgStyle {
  stroke : string;
  fill : string;
  strokeWidth : num
}.

(** The options object handed to [getStroke]. [easing] and [simulatePressure]
    are absent unless one of the two settings objects supplies them. *)
Record StrokeOptions : Type := mkStrokeOptions {
  o_size : num;
  o_thinning : num;
  o_end_taper : num;
  o_start_taper : num;
  o_easing : option (num -> num);
  o_simulatePressure : option bool
}.

(** The JSX element [render] returns. [d] is [pathCache.get(points)]. *)
Inductive Element : Type :=
  | circle (id : string) (r : num) (fill : string)
  | path (id : string) (d : option string) (fill : string).

(** A location names a JavaScript object on the heap. *)
Definition loc : Type := positive.

(** [DrawShape]. [points] is a reference: the array is shared, replaced and
    used as a cache key by identity. *)
Record DrawShape : Type := mkShape {
  id : string;
  isGenerated : bool;
  name : string;
  parentId : string;
  childIndex : num;
  point : Vec;
  points : loc;
  rotation : num;
  isAspectRatioLocked : bool;
  isLocked : bool;
  isHidden : bool;
  style : ShapeStyles
}.

Definition set_point (p : Vec) (s : DrawShape) : DrawShape :=
  mkShape (id s) (isGenerated s) (name s) (parentId s) (childIndex s) p
    (points s) (rotation s) (isAspectRatioLocked s) (isLocked s) (isHidden s)
    (style s).

Definition set_points (a : loc) (s : DrawShape) : DrawShape :=
  mkShape (id s) (isGenerated s) (name s) (parentId s) (childIndex s) (point s)
    a (rotation s) (isAspectRatioLocked s) (isLocked s) (isHidden s) (style s).

Definition set_style (st : ShapeStyles) (s : DrawShape) : DrawShape :=
  mkShape (id s) (isGenerated s) (name s) (parentId s) (childIndex s) (point s)
    (points s) (rotation s) (isAspectRatioLocked s) (isLocked s) (isHidden s) st.

(** The heap and the three caches of the module. A [WeakMap] keyed by an
    object is a finite map keyed by its location.
    [computed] is instrumentation: the shapes for which [getBounds] ran
    [getBoundsFromPoints], most recent first. *)
Record Heap : Type := mkHeap {
  shapes : gmap loc DrawShape;
  arrays : gmap loc (list Vec);
  boundsCache : gmap loc Bounds;
  rotatedCache : gmap loc (list Vec);
  pathCache : gmap loc string;
  computed : list loc
}.

End Data.

Arguments Vec : clear implicits.
Arguments Bounds : clear implicits.
Arguments SvgStyle : clear implicits.
Arguments StrokeOptions : clear implicits.
Arguments Element : clear implicits.
Arguments DrawShape : clear implicits.
Arguments Heap : clear implicits.

(** ** Collaborators whose code is not among the sources

    draw.tsx imports these from [utils/vec], [utils/bounds],
    [utils/intersections], [utils/utils], [lib/shape-styles] and the
    [perfect-freehand] package. They are parameters of the embedding; what a
    property needs of them is a hypothesis of its theorem. *)
Class Utils (num : Type) := {
  (** [vec.rotWith(A, C, r)]: [A] rotated about [C] by [r] radians. *)
  rotWith : Vec num -> Vec num -> num -> Vec num;
  (** [vec.distanceToLineSegment(A, B, P)]. *)
  distanceToLineSegment : Vec num -> Vec num -> Vec num -> num;
  (** [intersectPolylineBounds(points, bounds)]: the intersections found. *)
  intersectPolylineBounds : list (Vec num) -> Bounds num -> list (Vec num);
  (** [boundsContain(a, b)]: box [b] lies inside box [a]. *)
  boundsContain : Bounds num -> Bounds num -> bool;
  (** [getBoundsFromPoints(points, rotation?)]; [None] is the omitted
      argument. *)
  getBoundsFromPoints : list (Vec num) -> option num -> Bounds num;
  (** [getShapeStyle(style)]. *)
  getShapeStyle : ShapeStyles -> SvgStyle num;
  (** [getStroke(points, options)] of perfect-freehand: the outline polygon. *)
  getStroke : list (Vec num) -> StrokeOptions num -> list (Vec num);
  (** [getSvgPathFromStroke(stroke)]. *)
  getSvgPathFromStroke : list (Vec num) -> string
}.

(** ** The module *)

Section Draw.
Context {num : Type} {N : Number num} {U : Utils num}.
Local Open Scope js_scope.

Local Abbreviation Vec := (Vec num).
Local Abbreviation Bounds := (Bounds num).
Local Abbreviation Heap := (Heap num).
Local Abbreviation DrawShape := (DrawShape num).

(** Modelled from the spec: [vec.sub] of [utils/vec], subtraction of points,
    on the two coordinates. *)
Definition vec_sub (A B : Vec) : Vec := V2 (vx A - vx B) (vy A - vy B).

(** Modelled from the spec: [vec.add] of [utils/vec], addition of points, on
    the two coordinates. *)
Definition vec_add (A B : Vec) : Vec := V2 (vx A + vx B) (vy A + vy B).

(** Modelled from the spec: [translateBounds(bounds, delta)] of [utils/utils]
    moves the box by [delta] and keeps its extent. *)
Definition translateBounds (b : Bounds) (delta : Vec) : Bounds :=
  {| minX := minX b + vx delta;
     minY := minY b + vy delta;
     width := width b;
     height := height b |}.

(** Modelled from the spec: [getBoundsCenter(bounds)] of [utils/utils], the
    expression [getCenter] of draw.tsx spells out. *)
Definition getBoundsCenter (b : Bounds) : Vec :=
  V2 (minX b + width b / lit 2) (minY b + height b / lit 2).

(** Computations on the heap that may throw: [None] is a thrown [TypeError]
    (or a dangling location). *)
Definition M (A : Type) : Type := Heap -> option (A * Heap).

Definition ret {A} (a : A) : M A := fun h => Some (a, h).
Definition bind {A B} (m : M A) (k : A -> M B) : M B :=
  fun h => match m h with Some (a, h') => k a h' | None => None end.
Definition get_heap : M Heap := fun h => Some (h, h).
Definition put_heap (h' : Heap) : M unit := fun _ => Some (tt, h').
Definition lift {A} (o : option A) : M A :=
  fun h => match o with Some a => Some (a, h) | None => None end.

Notation "x <- m ;; k" := (bind m (fun x => k))
  (at level 100, m at next level, right associativity) : js_scope.

(** Assignments to the heap. *)
Definition set_shape (s : loc) (sh : DrawShape) (h : Heap) : Heap :=
  mkHeap (<[s := sh]> (shapes h)) (arrays h) (boundsCache h) (rotatedCache h)
    (pathCache h) (computed h).

Definition set_array (a : loc) (l : list Vec) (h : Heap) : Heap :=
  mkHeap (shapes h) (<[a := l]> (arrays h)) (boundsCache h) (rotatedCache h)
    (pathCache h) (computed h).

Definition boundsCache_set (s : loc) (b : Bounds) (h : Heap) : Heap :=
  mkHeap (shapes h) (arrays h) (<[s := b]> (boundsCache h)) (rotatedCache h)
    (pathCache h) (computed h).

Definition rotatedCache_set (s : loc) (l : list Vec) (h : Heap) : Heap :=
  mkHeap (shapes h) (arrays h) (boundsCache h) (<[s := l]> (rotatedCache h))
    (pathCache h) (computed h).

Definition pathCache_set (a : loc) (d : string) (h : Heap) : Heap :=
  mkHeap (shapes h) (arrays h) (boundsCache h) (rotatedCache h)
    (<[a := d]> (pathCache h)) (computed h).

Definition log_computed (s : loc) (h : Heap) : Heap :=
  mkHeap (shapes h) (arrays h) (boundsCache h) (rotatedCache h) (pathCache h)
    (s :: computed h).

(** [map.has(key)] of a [WeakMap]. *)
Definition has {A} (m : gmap loc A) (k : loc) : bool :=
  match m !! k with Some _ => true | None => false end.

(** A new array literal, spread or [map] result: an array at a location that
    is not in use. *)
Definition new_array (l : list Vec) : M loc :=
  h <- get_heap ;;
  let a := fresh (dom (arrays h)) in
  _ <- put_heap (set_array a l h) ;;
  ret a.

(** *** getBounds (draw.tsx, lines 65-72) *)
Definition getBounds (shape : loc) : M Bounds :=
  h <- get_heap ;;
  sh <- lift (shapes h !! shape) ;;
  _ <- (if negb (has (boundsCache h) shape) then
          pts <- lift (arrays h !! points sh) ;;
          let bounds := getBoundsFromPoints pts None in
          put_heap (boundsCache_set shape bounds (log_computed shape h))
        else ret tt) ;;
  h' <- get_heap ;;
  cached <- lift (boundsCache h' !! shape) ;;
  ret (translateBounds cached (point sh)).

(** *** getRotatedBounds (lines 74-85) *)
Definition getRotatedBounds (shape : loc) : M Bounds :=
  h <- get_heap ;;
  sh <- lift (shapes h !! shape) ;;
  pts <- lift (arrays h !! points sh) ;;
  let rBounds :=
    translateBounds (getBoundsFromPoints pts (Some (rotation sh))) (point sh) in
  bounds <- getBounds shape ;;
  let delta := vec_sub (getBoundsCenter bounds) (getBoundsCenter rBounds) in
  ret (translateBounds rBounds delta).

(** *** getCenter (lines 87-90) *)
Definition getCenter (shape : loc) : M Vec :=
  bounds <- getRotatedBounds shape ;;
  ret (V2 (minX bounds + width bounds / lit 2)
          (minY bounds + height bounds / lit 2)).

(** *** hitTest (lines 92-99)

    [some] visits the entries with their indices; the callback is
    [i > 0 && distanceToLineSegment(points[i - 1], curr, pt) < min]. *)
Definition hitTest_callback (pts : list Vec) (pt : Vec) (min : num)
    (ic : nat * Vec) : bool :=
  let '(i, curr) := ic in
  (0 <? i)%nat &&
  match pts !! (i - 1)%nat with
  | Some prev => distanceToLineSegment prev curr pt <? min
  | None => false
  end.

Definition hitTest (shape : loc) (p : Vec) : M bool :=
  h <- get_heap ;;
  sh <- lift (shapes h !! shape) ;;
  let pt := vec_sub p (point sh) in
  let min := strokeWidth (getShapeStyle (style sh)) in
  pts <- lift (arrays h !! points sh) ;;
  ret (existsb (hitTest_callback pts pt min) (imap pair pts)).

(** *** hitTestBounds (lines 101-127) *)
Definition hitTestBounds (shape : loc) (brushBounds : Bounds) : M bool :=
  h <- get_heap ;;
  sh <- lift (shapes h !! shape) ;;
  if rotation sh === lit 0 then
    bounds <- getBounds shape ;;
    pts <- lift (arrays h !! points sh) ;;
    ret (boundsContain brushBounds bounds
         || (0 <? length (intersectPolylineBounds pts brushBounds))%nat)
  else
    rBounds <- getRotatedBounds shape ;;
    h1 <- get_heap ;;
    _ <- (if negb (has (rotatedCache h1) shape) then
            let c := getBoundsCenter rBounds in
            pts <- lift (arrays h1 !! points sh) ;;
            put_heap (rotatedCache_set shape
              (map (fun pt => rotWith (vec_add pt (point sh)) c (rotation sh)) pts)
              h1)
          else ret tt) ;;
    h2 <- get_heap ;;
    rotated <- lift (rotatedCache h2 !! shape) ;;
    ret (boundsContain brushBounds rBounds
         || (0 <? length (intersectPolylineBounds rotated brushBounds))%nat).

(** *** transform (lines 129-151)

    [initialShapeBounds] may be [undefined]; reading its [width] then throws,
    which happens in the callback of [map], so only when there is a point. *)
Definition remap (bounds isb : Bounds) (scaleX scaleY : num) (pt : Vec) : Vec :=
  V2 (width bounds *
        (if scaleX <? lit 0 then lit 1 - vx pt / width isb
         else vx pt / width isb))
     (height bounds *
        (if scaleY <? lit 0 then lit 1 - vy pt / height isb
         else vy pt / height isb)).

Definition transform_point (bounds : Bounds) (initialShapeBounds : option Bounds)
    (scaleX scaleY : num) (pt : Vec) : option Vec :=
  match initialShapeBounds with
  | None => None
  | Some isb => Some (remap bounds isb scaleX scaleY pt)
  end.

Definition transform (shape : loc) (bounds : Bounds) (initialShape : loc)
    (scaleX scaleY : num) : M unit :=
  h <- get_heap ;;
  let initialShapeBounds := boundsCache h !! initialShape in
  ish <- lift (shapes h !! initialShape) ;;
  ipts <- lift (arrays h !! points ish) ;;
  newpts <- lift (mapM (transform_point bounds initialShapeBounds scaleX scaleY)
                    ipts) ;;
  a <- new_array newpts ;;
  h1 <- get_heap ;;
  sh <- lift (shapes h1 !! shape) ;;
  _ <- put_heap (set_shape shape (set_points a sh) h1) ;;
  let newBounds := getBoundsFromPoints newpts None in
  h2 <- get_heap ;;
  sh2 <- lift (shapes h2 !! shape) ;;
  put_heap (set_shape shape
    (set_point (vec_sub (V2 (minX bounds) (minY bounds))
                        (V2 (minX newBounds) (minY newBounds))) sh2) h2).

(** *** applyStyles (lines 153-160) *)
Definition applyStyles (shape : loc) (style' : PartialStyles) : M unit :=
  h <- get_heap ;;
  sh <- lift (shapes h !! shape) ;;
  let styles := spreadStyles (style sh) style' in
  let styles := mkStyles (color styles) (size styles) (dash styles) false in
  let styles := mkStyles (color styles) (size styles) Solid (isFilled styles) in
  _ <- put_heap (set_shape shape (set_style styles sh) h) ;;
  h1 <- get_heap ;;
  sh1 <- lift (shapes h1 !! shape) ;;
  pts <- lift (arrays h1 !! points sh1) ;;
  a <- new_array pts ;;
  h2 <- get_heap ;;
  sh2 <- lift (shapes h2 !! shape) ;;
  put_heap (set_shape shape (set_points a sh2) h2).

(** *** The two settings objects (lines 167-176) *)
Record PressureSettings : Type := mkSettings {
  easing : option (num -> num);
  simulatePressure : option bool
}.

Definition simulatePressureSettings : PressureSettings :=
  {| easing := None; simulatePressure := Some true |}.

Definition realPressureSettings : PressureSettings :=
  {| easing := Some (fun t => t * t); simulatePressure := Some false |}.

(** [shape.points[1][2] === 0.5]; an [undefined] third entry is not [0.5]. *)
Definition sentinel (p1 : Vec) : bool :=
  match third p1 with Some z => z === lit 0.5 | None => false end.

(** The object literal passed to [getStroke], [...options] spread last. *)
Definition strokeOptions (styles : SvgStyle num) (options : PressureSettings)
    : StrokeOptions num :=
  {| o_size := lit 1 + strokeWidth styles * lit 2;
     o_thinning := lit 0.85;
     o_end_taper := strokeWidth styles * lit 20;
     o_start_taper := strokeWidth styles * lit 20;
     o_easing := easing options;
     o_simulatePressure := simulatePressure options |}.

(** *** renderPath (lines 178-198) *)
Definition renderPath (shape : loc) (style' : ShapeStyles) : M unit :=
  let styles := getShapeStyle style' in
  h <- get_heap ;;
  sh <- lift (shapes h !! shape) ;;
  pts <- lift (arrays h !! points sh) ;;
  if (length pts <? 2)%nat then
    put_heap (pathCache_set (points sh) EmptyString h)
  else
    p1 <- lift (pts !! 1%nat) ;;
    let options :=
      if sentinel p1 then simulatePressureSettings else realPressureSettings in
    let stroke' := getStroke pts (strokeOptions styles options) in
    put_heap (pathCache_set (points sh) (getSvgPathFromStroke stroke') h).

(** *** render (lines 47-63) *)
Definition render (shape : loc) : M (Element num) :=
  h <- get_heap ;;
  sh <- lift (shapes h !! shape) ;;
  let styles := getShapeStyle (style sh) in
  _ <- (if negb (has (pathCache h) (points sh)) then renderPath shape (style sh)
        else ret tt) ;;
  h1 <- get_heap ;;
  pts <- lift (arrays h1 !! points sh) ;;
  if (length pts <? 2)%nat then
    ret (circle (id sh) (strokeWidth styles * lit 0.618) (stroke styles))
  else
    ret (path (id sh) (pathCache h1 !! points sh) (stroke styles)).

(** An assignment [shape.point = p] by the surrounding document layer. *)
Definition assign_point (shape : loc) (p : Vec) : M unit :=
  h <- get_heap ;;
  sh <- lift (shapes h !! shape) ;;
  put_heap (set_shape shape (set_point p sh) h).

End Draw.

(** ** The two number models *)

(** *** IEEE-754 binary64, the numbers of the program *)

Definition float : Set := PrimFloat.float.

Definition Z2F (z : Z) : float :=
  match z with
  | Z0 => PrimFloat.zero
  | Zpos _ => PrimFloat.of_uint63 (Uint63.of_Z z)
  | Zneg q => PrimFloat.opp (PrimFloat.of_uint63 (Uint63.of_Z (Zpos q)))
  end.

(** A decimal literal [n/d] with [n] and [d] below [2^53]: the quotient is
    rounded once, to the double the literal denotes. *)
Definition Q2F (q : Q) : float := PrimFloat.div (Z2F (Qnum q)) (Z2F (Zpos (Qden q))).

(** [Math.sin] and [Math.cos] are implementation-approximated in ECMAScript.
    This model sums [n] further terms of the Maclaurin series; it is exact at
    [0] and no statement below depends on its value elsewhere. *)
Fixpoint maclaurin (n : nat) (k term x2 acc : float) : float :=
  match n with
  | O => acc
  | S n' =>
      let term' :=
        PrimFloat.div (PrimFloat.opp (PrimFloat.mul term x2))
          (PrimFloat.mul (PrimFloat.add k PrimFloat.one)
                         (PrimFloat.add k PrimFloat.two)) in
      maclaurin n' (PrimFloat.add k PrimFloat.two) term' x2
        (PrimFloat.add acc term')
  end.

Definition float_sin (x : float) : float :=
  maclaurin 24 PrimFloat.one x (PrimFloat.mul x x) x.

Definition float_cos (x : float) : float :=
  maclaurin 24 PrimFloat.zero PrimFloat.one (PrimFloat.mul x x) PrimFloat.one.

#[export] Instance FloatNumber : Number float := {|
  lit := Q2F;
  nadd := PrimFloat.add;
  nsub := PrimFloat.sub;
  nmul := PrimFloat.mul;
  ndiv := PrimFloat.div;
  nlt := PrimFloat.ltb;
  nle := PrimFloat.leb;
  nseq := PrimFloat.eqb;
  Math_sqrt := PrimFloat.sqrt;
  Math_sin := float_sin;
  Math_cos := float_cos
|}.

(** *** The real numbers, exact arithmetic *)

#[export] Instance RealNumber : Number R := {|
  lit := Q2R;
  nadd := Rplus;
  nsub := Rminus;
  nmul := Rmult;
  ndiv := Rdiv;
  nlt := fun a b => if Rlt_dec a b then true else false;
  nle := fun a b => if Rle_dec a b then true else false;
  nseq := fun a b => if Req_dec_T a b then true else false;
  Math_sqrt := R_sqrt.sqrt;
  Math_sin := Rtrigo_def.sin;
  Math_cos := Rtrigo_def.cos
|}.

(** ** A concrete set of collaborators

    Used to run the module on concrete inputs. The geometry helpers are
    modelled from the spec; the style table and the outline generator, which
    the spec leaves to other modules, are stand-ins. *)
Section Sample.
Context {num : Type} {N : Number num}.
Local Open Scope js_scope.

(** Modelled from the spec: [vec.rotWith] of [utils/vec], rotate-about-point. *)
Definition sample_rotWith (A C : Vec num) (r : num) : Vec num :=
  let s := Math_sin r in
  let c := Math_cos r in
  let px := vx A - vx C in
  let py := vy A - vy C in
  V2 (px * c - py * s + vx C) (px * s + py * c + vy C).

(** Modelled from the spec: [vec.distanceToLineSegment] of [utils/vec],
    distance-from-point-to-segment: the distance from [P] to the nearest
    point of the segment [A B]. *)
Definition sample_distanceToLineSegment (A B P : Vec num) : num :=
  let dx := vx B - vx A in
  let dy := vy B - vy A in
  let t := ((vx P - vx A) * dx + (vy P - vy A) * dy) / (dx * dx + dy * dy) in
  let t := if t <? lit 0 then lit 0 else if lit 1 <? t then lit 1 else t in
  let ex := vx P - (vx A + t * dx) in
  let ey := vy P - (vy A + t * dy) in
  Math_sqrt (ex * ex + ey * ey).

(** Where the segments [a1 a2] and [b1 b2] cross, if they do. *)
Definition intersectLineSegments (a1 a2 b1 b2 : Vec num) : list (Vec num) :=
  let ua_t := (vx b2 - vx b1) * (vy a1 - vy b1) - (vy b2 - vy b1) * (vx a1 - vx b1) in
  let ub_t := (vx a2 - vx a1) * (vy a1 - vy b1) - (vy a2 - vy a1) * (vx a1 - vx b1) in
  let u_b := (vy b2 - vy b1) * (vx a2 - vx a1) - (vx b2 - vx b1) * (vy a2 - vy a1) in
  if u_b === lit 0 then []
  else
    let ua := ua_t / u_b in
    let ub := ub_t / u_b in
    if (lit 0 <=? ua) && (ua <=? lit 1) && (lit 0 <=? ub) && (ub <=? lit 1)
    then [V2 (vx a1 + ua * (vx a2 - vx a1)) (vy a1 + ua * (vy a2 - vy a1))]
    else [].

(** The four sides of a box, as segments. *)
Definition sides (b : Bounds num) : list (Vec num * Vec num) :=
  let x0 := minX b in
  let y0 := minY b in
  let x1 := minX b + width b in
  let y1 := minY b + height b in
  [(V2 x0 y0, V2 x1 y0); (V2 x1 y0, V2 x1 y1);
   (V2 x1 y1, V2 x0 y1); (V2 x0 y1, V2 x0 y0)].

(** The consecutive pairs of a polyline. *)
Fixpoint segments (pts : list (Vec num)) : list (Vec num * Vec num) :=
  match pts with
  | a :: (b :: _) as rest => (a, b) :: segments rest
  | _ => []
  end.

(** Modelled from the spec: [intersectPolylineBounds] of
    [utils/intersections]: the points where the polyline crosses the sides of
    the box. *)
Definition sample_intersectPolylineBounds (pts : list (Vec num)) (b : Bounds num)
    : list (Vec num) :=
  flat_map (fun ab =>
    flat_map (fun cd => intersectLineSegments (fst ab) (snd ab) (fst cd) (snd cd))
      (sides b)) (segments pts).

(** Modelled from the spec: [boundsContain(a, b)] of [utils/bounds]: box [b]
    fully inside box [a]. *)
Definition sample_boundsContain (a b : Bounds num) : bool :=
  (minX a <=? minX b) && (minY a <=? minY b)
  && (minX b + width b <=? minX a + width a)
  && (minY b + height b <=? minY a + height a).

Definition least (x0 : num) (l : list num) : num :=
  fold_left (fun m x => if x <? m then x else m) l x0.

Definition greatest (x0 : num) (l : list num) : num :=
  fold_left (fun m x => if m <? x then x else m) l x0.

(** The box enclosing a point set (of an empty one: the empty box at the
    origin, a case no statement below relies on). *)
Definition box_of (pts : list (Vec num)) : Bounds num :=
  match pts with
  | [] => mkBounds (lit 0) (lit 0) (lit 0) (lit 0)
  | p :: rest =>
      let x0 := least (vx p) (map vx rest) in
      let y0 := least (vy p) (map vy rest) in
      let x1 := greatest (vx p) (map vx rest) in
      let y1 := greatest (vy p) (map vy rest) in
      mkBounds x0 y0 (x1 - x0) (y1 - y0)
  end.

(** Modelled from the spec: [getBoundsFromPoints(points, rotation?)] of
    [utils/utils]: the box enclosing the points, pre-rotated by [rotation]
    about the centre of their box when a rotation is given. *)
Definition sample_getBoundsFromPoints (pts : list (Vec num)) (rotation' : option num)
    : Bounds num :=
  let b := box_of pts in
  match rotation' with
  | None => b
  | Some r =>
      if r === lit 0 then b
      else
        let c := V2 (minX b + width b / lit 2) (minY b + height b / lit 2) in
        box_of (map (fun pt => sample_rotWith pt c r) pts)
  end.

(** Stand-in for [getShapeStyle] of [lib/shape-styles]: the colour name as
    stroke, a width per size category. *)
Definition sample_getShapeStyle (st : ShapeStyles) : SvgStyle num :=
  {| stroke := color st;
     fill := if isFilled st then color st else "none"%string;
     strokeWidth :=
       if String.eqb (size st) "Small" then lit 2
       else if String.eqb (size st) "Large" then lit 8
       else lit 4 |}.

(** Stand-in for [getStroke] of perfect-freehand: the centre line itself. *)
Definition sample_getStroke (pts : list (Vec num)) (_ : StrokeOptions num)
    : list (Vec num) := pts.

(** Stand-in for [getSvgPathFromStroke]: one path command per vertex. *)
Definition sample_getSvgPathFromStroke (stroke' : list (Vec num)) : string :=
  match stroke' with
  | [] => EmptyString
  | _ :: rest =>
      String.append "M" (fold_right (fun _ acc => String.append "L" acc) "Z"%string rest)
  end.

#[export] Instance sampleUtils : Utils num := {|
  rotWith := sample_rotWith;
  distanceToLineSegment := sample_distanceToLineSegment;
  intersectPolylineBounds := sample_intersectPolylineBounds;
  boundsContain := sample_boundsContain;
  getBoundsFromPoints := sample_getBoundsFromPoints;
  getShapeStyle := sample_getShapeStyle;
  getStroke := sample_getStroke;
  getSvgPathFromStroke := sample_getSvgPathFromStroke
|}.

End Sample.

(** ** Runs of the module *)

Section Runs.
Context {num : Type} {N : Number num} {U : Utils num}.
Local Open Scope js_scope.

(** One call of an operation of the module by its owner (or an assignment to
    [shape.point]). *)
Inductive Op : Type :=
  | GetBounds (shape : loc)
  | GetRotatedBounds (shape : loc)
  | GetCenter (shape : loc)
  | HitTest (shape : loc) (p : Vec num)
  | HitTestBounds (shape : loc) (brushBounds : Bounds num)
  | Transform (shape : loc) (bounds : Bounds num) (initialShape : loc)
      (scaleX scaleY : num)
  | ApplyStyles (shape : loc) (partialStyle : PartialStyles)
  | Render (shape : loc)
  | AssignPoint (shape : loc) (p : Vec num).

Definition forget {A} (m : M (num := num) A) : M (num := num) unit :=
  bind m (fun _ => ret tt).

Definition exec (o : Op) : M (num := num) unit :=
  match o with
  | GetBounds s => forget (getBounds s)
  | GetRotatedBounds s => forget (getRotatedBounds s)
  | GetCenter s => forget (getCenter s)
  | HitTest s p => forget (hitTest s p)
  | HitTestBounds s b => forget (hitTestBounds s b)
  | Transform s b i sx sy => transform s b i sx sy
  | ApplyStyles s st => applyStyles s st
  | Render s => forget (render s)
  | AssignPoint s p => assign_point s p
  end.

Fixpoint run (ops : list Op) : M (num := num) unit :=
  match ops with
  | [] => ret tt
  | o :: rest => bind (exec o) (fun _ => run rest)
  end.

(** What the instrumentation is read for: no shape is logged twice, and a
    logged shape has its box in the cache. *)
Definition computed_once (h : Heap num) : Prop :=
  NoDup (computed h) /\
  forall s, s ∈ computed h -> is_Some (boundsCache h !! s).

(** What a successful call of [getBounds] did to the cache and to the log:
    nothing, or one new entry for a shape that had none. *)
Definition cache_step (h h' : Heap num) : Prop :=
  h' = h \/
  exists s b, boundsCache h !! s = None /\
              h' = boundsCache_set s b (log_computed s h).

(** A heap with the same cache and the same log. *)
Definition same_cache (h h' : Heap num) : Prop :=
  boundsCache h' = boundsCache h /\ computed h' = computed h.

(** The unrotated branch of [hitTestBounds] as the specification words it:
    the brush contains the bounds, or the polyline in document space (every
    sample point translated by the anchor, as the rotated branch does before
    rotating) meets the brush. *)
Definition hitTestBounds_unrotated_spec (shape : loc) (testBox : Bounds num)
    : M (num := num) bool :=
  bind get_heap (fun h =>
  bind (lift (shapes h !! shape)) (fun sh =>
  bind (getBounds shape) (fun bounds =>
  bind (lift (arrays h !! points sh)) (fun pts =>
  ret (boundsContain testBox bounds
       || (0 <? length (intersectPolylineBounds
                          (map (fun pt => vec_add pt (point sh)) pts)
                          testBox))%nat))))).

End Runs.

Arguments Op : clear implicits.

(** Unfolds the monad of the embedding. *)
Ltac step_m :=
  unfold forget, bind, ret, lift, get_heap, put_heap, new_array; simpl.

(** ** Boxes of point sets, in exact arithmetic *)

(** [b] is the box of [pts]: it encloses every point and each of its four
    sides touches one. *)
Definition box_encloses (b : Bounds R) (pts : list (Vec R)) : Prop :=
  (forall p, p ∈ pts ->
     (minX b <= vx p <= minX b + width b)%R /\
     (minY b <= vy p <= minY b + height b)%R) /\
  (exists p, p ∈ pts /\ vx p = minX b) /\
  (exists p, p ∈ pts /\ vx p = (minX b + width b)%R) /\
  (exists p, p ∈ pts /\ vy p = minY b) /\
  (exists p, p ∈ pts /\ vy p = (minY b + height b)%R).

(** The normalized offset of a coordinate inside an interval of a box. *)
Definition normalized (x lo extent : R) : R := ((x - lo) / extent)%R.

(** The remapped coordinate of [transform], as a function of the old one and
    of the two extents. *)
Definition remap1 (extent' extent scale x : R) : R :=
  nmul extent'
    (if nlt scale (lit 0) then nsub (lit 1) (ndiv x extent) else ndiv x extent).

(** ** Concrete inputs *)

Definition blackMedium : ShapeStyles := mkStyles "Black" "Medium" Solid false.

Definition drawShape {num} `{Number num} (anchor : Vec num) (a : loc)
    (r : num) : DrawShape num :=
  mkShape "shape0" false "Draw" "page0" (lit 0) anchor a r false false false
    blackMedium.

Definition emptyHeap {num} : Heap num := mkHeap ∅ ∅ ∅ ∅ ∅ [].

(** A horizontal stroke [[0,0,0.5],[50,0,0.5]] anchored at [[100,100]]. *)
Definition strokeHeap {num} `{Number num} : Heap num :=
  mkHeap {[ 1%positive := drawShape (V2 (lit 100) (lit 100)) 1%positive (lit 0) ]}
         {[ 1%positive := [V3 (lit 0) (lit 0) (lit 0.5);
                           V3 (lit 50) (lit 0) (lit 0.5)] ]}
         ∅ ∅ ∅ [].

(** A brush across the middle of that stroke, clear of the origin. *)
Definition strokeBrush {num} `{Number num} : Bounds num :=
  mkBounds (lit 120) (lit 90) (lit 10) (lit 20).

(** A diagonal stroke [[0,0,0.5],[30,40,0.5]] anchored at [[100,100]]: the
    live shape [1] and its snapshot [2] share the points array. *)
Definition dragHeap {num} `{Number num} : Heap num :=
  mkHeap {[ 1%positive := drawShape (V2 (lit 100) (lit 100)) 1%positive (lit 0);
            2%positive := drawShape (V2 (lit 100) (lit 100)) 1%positive (lit 0) ]}
         {[ 1%positive := [V3 (lit 0) (lit 0) (lit 0.5);
                           V3 (lit 30) (lit 40) (lit 0.5)] ]}
         ∅ ∅ ∅ [].

(** A dot: a shape with a single sample point. *)
Definition dotHeap {num} `{Number num} : Heap num :=
  mkHeap {[ 1%positive := drawShape (V2 (lit 100) (lit 100)) 1%positive (lit 0) ]}
         {[ 1%positive := [V3 (lit 0) (lit 0) (lit 0.5)] ]}
         ∅ ∅ ∅ [].

(** The same drag, with the box of the snapshot already in the cache. *)
Definition dragHeapCached {num} `{Number num} : Heap num :=
  mkHeap (shapes dragHeap) (arrays dragHeap)
    {[ 2%positive := mkBounds (lit 0) (lit 0) (lit 30) (lit 40) ]} ∅ ∅ [].

(** A brush around the origin, far from where the horizontal stroke is. *)
Definition originBrush {num} `{Number num} : Bounds num :=
  mkBounds (lit 20) (lit (-10)) (lit 10) (lit 20).

(** A partial style that asks for a filled, dashed shape. *)
Definition filledDashed : PartialStyles :=
  mkPartial None (Some "Large"%string) (Some Dashed) (Some true).

(** The sample points of a shape, read through its [points] reference. *)
Definition points_of {num} (h : Heap num) (shape : loc) : option (list (Vec num)) :=
  match shapes h !! shape with
  | Some sh => arrays h !! points sh
  | None => None
  end.

(** [getBounds] on the live shape and on the snapshot, a resize of the live
    shape to twice the size, then both bounds of the live shape. *)
Definition resize_then_bounds : M (num := float) (Bounds float * Bounds float) :=
  bind (run [GetBounds 1%positive; GetBounds 2%positive;
             Transform 1%positive
               (mkBounds (lit 100) (lit 100) (lit 60) (lit 80)) 2%positive
               (lit 2) (lit 2)])
    (fun _ => bind (getBounds 1%positive)
    (fun a => bind (getRotatedBounds 1%positive)
    (fun b => ret (a, b)))).

(** [getBounds] on the snapshot, then a transform of the live shape to the
    snapshot's own bounds with both scale factors 1. *)
Definition identity_drag : M (num := float) unit :=
  bind (getBounds 2%positive)
    (fun original => transform 1%positive original 2%positive (lit 1) (lit 1)).

(** The same on the horizontal stroke, whose box has height 0. *)
Definition identity_drag_flat : M (num := float) unit :=
  bind (getBounds 1%positive)
    (fun original => transform 1%positive original 1%positive (lit 1) (lit 1)).

(** ** create, and what the caches keep *)

Section Create.
Context {num : Type} {N : Number num}.
Local Open Scope js_scope.

(** [Partial<DrawShape>], the [props] of [create]: every key may be absent.
    [q_points], when present, is a reference to an array that exists. *)
Record PartialShape : Type := mkPartialShape {
  q_id : option string;
  q_isGenerated : option bool;
  q_name : option string;
  q_parentId : option string;
  q_childIndex : option num;
  q_point : option (Vec num);
  q_points : option loc;
  q_rotation : option num;
  q_isAspectRatioLocked : option bool;
  q_isLocked : option bool;
  q_isHidden : option bool;
  q_style : PartialStyles
}.

(** *** create (draw.tsx, lines 24-45)

    The object literal is evaluated in order: [uuid()] and the empty array
    [[]] are made whether or not [...props] then overrides them; [style] is
    written last. [uuid] is the identifier that [uuid()] returns and
    [defaultStyle] the constant of [lib/shape-styles]. The new shape is an
    object at a location not in use. *)
Definition create (uuid : string) (defaultStyle : ShapeStyles)
    (props : PartialShape) : M (num := num) loc :=
  bind (new_array []) (fun empty =>
  bind get_heap (fun h =>
  let merged := spreadStyles defaultStyle (q_style props) in
  let sh :=
    mkShape (default uuid (q_id props))
      (default false (q_isGenerated props))
      (default "Draw"%string (q_name props))
      (default "page0"%string (q_parentId props))
      (default (lit 0) (q_childIndex props))
      (default (V2 (lit 0) (lit 0)) (q_point props))
      (default empty (q_points props))
      (default (lit 0) (q_rotation props))
      (default false (q_isAspectRatioLocked props))
      (default false (q_isLocked props))
      (default false (q_isHidden props))
      (mkStyles (color merged) (size merged) (dash merged) false) in
  let s := fresh (dom (shapes h)) in
  bind (put_heap (set_shape s sh h)) (fun _ => ret s))).

(** [canStyleFill] (line 162). *)
Definition canStyleFill : bool := false.

(** Over a stretch of execution nothing present is overwritten or removed:
    every array and every cache entry of [h] is in [h'] as it was. *)
Definition grows (h h' : Heap num) : Prop :=
  arrays h ⊆ arrays h' /\
  boundsCache h ⊆ boundsCache h' /\
  rotatedCache h ⊆ rotatedCache h' /\
  pathCache h ⊆ pathCache h'.

(** The keys of the caches are objects of the heap (a [WeakMap] holds no
    entry for an object that does not exist). *)
Definition keys_live (h : Heap num) : Prop :=
  dom (boundsCache h) ⊆ dom (shapes h) /\
  dom (rotatedCache h) ⊆ dom (shapes h) /\
  dom (pathCache h) ⊆ dom (arrays h).

End Create.

Section Centred.
Context {num : Type} {N : Number num} {U : Utils num}.

(** The box [getRotatedBounds] returns for a shape with sample points [pts],
    anchor [anchor] and rotation [r] when [getBounds] answers from the cached
    local box [local]: the pre-rotated box, moved onto the centre of the
    unrotated one (lines 75-84). *)
Definition centred (local : Bounds num) (pts : list (Vec num))
    (anchor : Vec num) (r : num) : Bounds num :=
  let rBounds := translateBounds (getBoundsFromPoints pts (Some r)) anchor in
  translateBounds rBounds
    (vec_sub (getBoundsCenter (translateBounds local anchor))
             (getBoundsCenter rBounds)).

End Centred.

Arguments PartialShape : clear implicits.

(** The [props] that give nothing. *)
Definition noProps {num} : PartialShape num :=
  mkPartialShape None None None None None None None None None None None
    (mkPartial None None None None).

(** ** The page item submenu (packages/ui, PageItemSubmenu.tsx) *)

(** What selecting an item does: the call the handler makes on the app (the
    handlers of lines 27-45) or the [onRename] prop. *)
Inductive PageAction : Type :=
  | RenamePage
  | DuplicatePage (pageId : string)
  | MovePage (pageId : string) (from to : Z)
  | DeletePage (pageId : string).

(** A [DropdownMenu.Item] with its button label. *)
Record MenuItem : Type := mkItem {
  itemLabel : string;
  itemSelect : PageAction;
  itemDisabled : bool
}.

(** The groups of [M.Content] (lines 47-86), for the props [index], [item.id],
    [listSize], whether [onRename] is given, the number of pages of the app
    and the constant [MAX_PAGES] of [@tldraw/editor]. *)
Definition PageItemSubmenu (index : Z) (itemId : string) (listSize : Z)
    (onRename : bool) (pages MAX_PAGES : Z) : list (list MenuItem) :=
  ((if onRename then [mkItem "page-menu.submenu.rename" RenamePage false] else [])
   ++ [mkItem "page-menu.submenu.duplicate-page" (DuplicatePage itemId)
         (MAX_PAGES <=? pages)%Z]
   ++ (if (0 <? index)%Z
       then [mkItem "page-menu.submenu.move-up"
               (MovePage itemId index (index - 1)) false]
       else [])
   ++ (if (index <? listSize - 1)%Z
       then [mkItem "page-menu.submenu.move-down"
               (MovePage itemId index (index + 1)) false]
       else []))
  :: (if (1 <? listSize)%Z
      then [[mkItem "page-menu.submenu.delete" (DeletePage itemId) false]]
      else []).

(** The actions the menu offers. *)
Definition offered (menu : list (list MenuItem)) : list PageAction :=
  map itemSelect (concat menu).

(** The diagonal stroke, turned by one radian. *)
Definition turnedHeap {num} `{Number num} : Heap num :=
  mkHeap {[ 1%positive := drawShape (V2 (lit 100) (lit 100)) 1%positive (lit 1) ]}
         {[ 1%positive := [V3 (lit 0) (lit 0) (lit 0.5);
                           V3 (lit 30) (lit 40) (lit 0.5)] ]}
         ∅ ∅ ∅ [].

(** A session on the diagonal stroke: bounds, a render, a restyle, a second
    render, a resize from the snapshot and a brush test. *)
Definition session : list (Op float) :=
  [GetBounds 2%positive; Render 1%positive;
   ApplyStyles 1%positive filledDashed; Render 1%positive;
   Transform 1%positive (mkBounds (lit 100) (lit 100) (lit 60) (lit 80))
     2%positive (lit 2) (lit 2);
   HitTestBounds 1%positive strokeBrush].

(** ** Inputs that show the rounding of binary64 *)

(** A live shape [1] and its snapshot [2] that share the sample points [pts],
    unrotated and anchored at [anchor], with nothing cached. *)
Definition snapshotHeap {num} `{Number num} (pts : list (Vec num))
    (anchor : Vec num) : Heap num :=
  mkHeap {[ 1%positive := drawShape anchor 1%positive (lit 0);
            2%positive := drawShape anchor 1%positive (lit 0) ]}
         {[ 1%positive := pts ]} ∅ ∅ ∅ [].

(** A stroke [[0.1,0,0.5],[1,1,0.5]] anchored at [[0.2,0]]. *)
Definition tenthsHeap : Heap float :=
  snapshotHeap [V3 (lit 0.1) (lit 0) (lit 0.5); V3 (lit 1) (lit 1) (lit 0.5)]
    (V2 (lit 0.2) (lit 0)).

(** [getBounds], the assignment [shape.point = [0.5, 0]] (the anchor moves by
    [[0.3, 0]]), and [getBounds] again. *)
Definition move_then_bounds : M (num := float) (Bounds float * Bounds float) :=
  bind (getBounds 1%positive)
    (fun a => bind (assign_point 1%positive (V2 (lit 0.5) (lit 0)))
    (fun _ => bind (getBounds 1%positive)
    (fun b => ret (a, b)))).

(** [getBounds], then [getRotatedBounds], of the live shape. *)
Definition both_bounds : M (num := float) (Bounds float * Bounds float) :=
  bind (getBounds 1%positive)
    (fun a => bind (getRotatedBounds 1%positive)
    (fun b => ret (a, b))).

(** The number [-0]. *)
Definition negZero : float := nmul (lit 0) (lit (-1)).

(** A stroke [[-0,0],[10,10]] anchored at [[-0,0]]. *)
Definition negZeroHeap : Heap float :=
  snapshotHeap [V2 negZero (lit 0); V2 (lit 10) (lit 10)] (V2 negZero (lit 0)).

(** [2^n]. *)
Definition twoTo (n : nat) : float :=
  Nat.iter n (fun x => nmul x (lit 2)) (lit 1).

(** [1.5 * 2^1023], a finite number of which two do not add up to one. *)
Definition farAway : float := nmul (lit 1.5) (twoTo 1023).

(** A stroke [[0,0],[farAway,10]] anchored at [[farAway,0]]. *)
Definition farHeap : Heap float :=
  snapshotHeap [V2 (lit 0) (lit 0); V2 farAway (lit 10)] (V2 farAway (lit 0)).

(** A stroke [[9.1,9.1,0.5],[151.52,151.52,0.5]] anchored at [[-60,-60]]. *)
Definition ulpHeap : Heap float :=
  snapshotHeap [V3 (lit 9.1) (lit 9.1) (lit 0.5);
                V3 (lit 151.52) (lit 151.52) (lit 0.5)]
    (V2 (lit (-60)) (lit (-60))).

(** [getBounds] on the snapshot, the transform of the live shape to those
    bounds with both scale factors 1, and [getBounds] on the live shape. *)
Definition identity_drag_then_bounds
    : M (num := float) (Bounds float * Bounds float) :=
  bind (getBounds 2%positive)
    (fun original =>
       bind (transform 1%positive original 2%positive (lit 1) (lit 1))
    (fun _ => bind (getBounds 1%positive)
    (fun after => ret (original, after)))).

(** A stroke [[0,0,0.5],[1.1,5,0.5],[10,10,0.5]] anchored at the origin. *)
Definition mirrorHeap : Heap float :=
  snapshotHeap [V3 (lit 0) (lit 0) (lit 0.5); V3 (lit 1.1) (lit 5) (lit 0.5);
                V3 (lit 10) (lit 10) (lit 0.5)]
    (V2 (lit 0) (lit 0)).

(** The box that stroke is flipped into. *)
Definition mirrorTarget : Bounds float :=
  mkBounds (lit 0.3) (lit 0) (lit 10.1) (lit 10).

(** [getBounds] on the snapshot, then the transform of the live shape into
    [mirrorTarget] with [scaleX = -1]; the result is the box of the snapshot,
    the anchor of the live shape and its sample points. *)
Definition flip_drag
    : M (num := float) (Bounds float * Vec float * list (Vec float)) :=
  bind (getBounds 2%positive)
    (fun original =>
       bind (transform 1%positive mirrorTarget 2%positive (lit (-1)) (lit 1))
    (fun _ => bind get_heap
    (fun h => bind (lift (shapes h !! 1%positive))
    (fun sh => bind (lift (arrays h !! points sh))
    (fun pts => ret (original, point sh, pts)))))).

(** [getBounds] on the horizontal stroke, then its transform into a box 50 by
    20 with [scaleY = -1]. *)
Definition flip_flat : M (num := float) unit :=
  bind (getBounds 1%positive)
    (fun _ => transform 1%positive
                (mkBounds (lit 100) (lit 100) (lit 50) (lit 20)) 1%positive
                (lit 1) (lit (-1))).

(** ** transform, with the state at a throw

    [M] forgets the heap when a computation throws. To say what has been
    assigned by the time [transform] throws, its statements are read here in
    a monad that keeps the heap reached: the heap, and the result unless an
    exception was thrown. *)

Section Traced.
Context {num : Type} {N : Number num} {U : Utils num}.

Definition MT (A : Type) : Type := Heap num -> Heap num * option A.

Definition ret_t {A} (a : A) : MT A := fun h => (h, Some a).
Definition bind_t {A B} (m : MT A) (k : A -> MT B) : MT B :=
  fun h => match m h with
           | (h', Some a) => k a h'
           | (h', None) => (h', None)
           end.
Definition get_heap_t : MT (Heap num) := fun h => (h, Some h).
Definition put_heap_t (h' : Heap num) : MT unit := fun _ => (h', Some tt).
Definition lift_t {A} (o : option A) : MT A := fun h => (h, o).

Definition new_array_t (l : list (Vec num)) : MT loc :=
  bind_t get_heap_t (fun h =>
  let a := fresh (dom (arrays h)) in
  bind_t (put_heap_t (set_array a l h)) (fun _ => ret_t a)).

(** transform (lines 129-151), statement by statement as in [transform]. *)
Definition transform_traced (shape : loc) (bounds : Bounds num)
    (initialShape : loc) (scaleX scaleY : num) : MT unit :=
  bind_t get_heap_t (fun h =>
  let initialShapeBounds := boundsCache h !! initialShape in
  bind_t (lift_t (shapes h !! initialShape)) (fun ish =>
  bind_t (lift_t (arrays h !! points ish)) (fun ipts =>
  bind_t (lift_t (mapM (transform_point bounds initialShapeBounds scaleX scaleY)
                    ipts)) (fun newpts =>
  bind_t (new_array_t newpts) (fun a =>
  bind_t get_heap_t (fun h1 =>
  bind_t (lift_t (shapes h1 !! shape)) (fun sh =>
  bind_t (put_heap_t (set_shape shape (set_points a sh) h1)) (fun _ =>
  let newBounds := getBoundsFromPoints newpts None in
  bind_t get_heap_t (fun h2 =>
  bind_t (lift_t (shapes h2 !! shape)) (fun sh2 =>
  put_heap_t (set_shape shape
    (set_point (vec_sub (V2 (minX bounds) (minY bounds))
                        (V2 (minX newBounds) (minY newBounds))) sh2) h2))))))))))).

(** What [M] keeps of an outcome. *)
Definition outcome {A} (r : Heap num * option A) : option (A * Heap num) :=
  match r with
  | (h, Some a) => Some (a, h)
  | (_, None) => None
  end.

End Traced.

(** * Theorems *)

(** ** Properties that hold in every arithmetic *)

Section Structural.
Context {num : Type} {N : Number num} {U : Utils num}.
Local Open Scope js_scope.

Lemma lookup_map {A B} (f : A -> B) (l : list A) (i : nat) :
  map f l !! i = option_map f (l !! i).
Proof.
  revert i. induction l as [|a l IH]; intros [|i]; simpl; auto.
Qed.

Lemma fresh_array_ne (h : Heap num) (a : loc) (l : list (Vec num)) :
  arrays h !! a = Some l -> fresh (dom (arrays h)) <> a.
Proof.
  intros Ha Heq.
  apply (is_fresh (dom (arrays h))).
  rewrite Heq. apply elem_of_dom. eauto.
Qed.

Lemma mapM_transform_point (bounds isb : Bounds num) (sx sy : num)
    (l : list (Vec num)) :
  mapM (transform_point bounds (Some isb) sx sy) l
  = Some (map (remap bounds isb sx sy) l).
Proof.
  induction l as [|p l IH]; [reflexivity|].
  simpl. rewrite IH. reflexivity.
Qed.

(** *** getBounds: hit and miss *)

Lemma getBounds_hit (h : Heap num) (shape : loc) (sh : DrawShape num)
    (c : Bounds num) :
  shapes h !! shape = Some sh ->
  boundsCache h !! shape = Some c ->
  getBounds shape h = Some (translateBounds c (point sh), h).
Proof.
  intros Hs Hc. unfold getBounds, has. step_m.
  rewrite Hs. simpl. rewrite Hc. simpl. rewrite Hc. reflexivity.
Qed.

Lemma getBounds_miss (h : Heap num) (shape : loc) (sh : DrawShape num)
    (pts : list (Vec num)) :
  shapes h !! shape = Some sh ->
  boundsCache h !! shape = None ->
  arrays h !! points sh = Some pts ->
  getBounds shape h
  = Some (translateBounds (getBoundsFromPoints pts None) (point sh),
          boundsCache_set shape (getBoundsFromPoints pts None)
            (log_computed shape h)).
Proof.
  intros Hs Hc Ha. unfold getBounds, has. step_m.
  rewrite Hs. simpl. rewrite Hc. simpl. rewrite Ha. simpl.
  rewrite lookup_insert_eq. reflexivity.
Qed.

Lemma getBounds_cache_step (h h' : Heap num) (shape : loc) (b : Bounds num) :
  getBounds shape h = Some (b, h') -> cache_step h h'.
Proof.
  unfold getBounds, has. step_m.
  destruct (shapes h !! shape) as [sh|]; simpl; [|discriminate].
  destruct (boundsCache h !! shape) as [c|] eqn:Hc; simpl.
  - rewrite Hc. simpl. intros [= _ <-]. left. reflexivity.
  - destruct (arrays h !! points sh) as [pts|]; simpl; [|discriminate].
    rewrite lookup_insert_eq. simpl. intros [= _ <-].
    right. eexists _, _. split; [exact Hc|reflexivity].
Qed.

Lemma cache_step_once (h h' : Heap num) :
  cache_step h h' -> computed_once h -> computed_once h'.
Proof.
  intros [->|(s & b & Hc & ->)] [Hnd Hin]; [split; assumption|].
  split; simpl.
  - apply NoDup_cons. split; [|exact Hnd].
    intros Hs. apply Hin in Hs. rewrite Hc in Hs. destruct Hs. discriminate.
  - intros s' Hs'. apply elem_of_cons in Hs'.
    destruct (decide (s = s')) as [->|Hne].
    + rewrite lookup_insert_eq. eauto.
    + rewrite lookup_insert_ne by exact Hne.
      destruct Hs' as [->|Hs']; [congruence|]. apply Hin. exact Hs'.
Qed.

Lemma same_cache_once (h h' : Heap num) :
  same_cache h h' -> computed_once h -> computed_once h'.
Proof.
  intros [Hb Hc] [Hnd Hin]. unfold computed_once. rewrite Hb, Hc.
  split; assumption.
Qed.

Lemma getRotatedBounds_cache_step (h h' : Heap num) (shape : loc)
    (b : Bounds num) :
  getRotatedBounds shape h = Some (b, h') -> cache_step h h'.
Proof.
  unfold getRotatedBounds. step_m.
  destruct (shapes h !! shape) as [sh|]; simpl; [|discriminate].
  destruct (arrays h !! points sh) as [pts|]; simpl; [|discriminate].
  destruct (getBounds shape h) as [[b0 h0]|] eqn:Hg; [|discriminate].
  intros [= _ <-]. eapply getBounds_cache_step. exact Hg.
Qed.

Lemma exec_once (o : Op num) (h h' : Heap num) :
  exec o h = Some (tt, h') -> computed_once h -> computed_once h'.
Proof.
  destruct o as [s|s|s|s p|s b|s b i sx sy|s st|s|s p]; simpl.
  - step_m. destruct (getBounds s h) as [[b0 h0]|] eqn:Hg; [|discriminate].
    intros [= <-]. apply cache_step_once. eapply getBounds_cache_step, Hg.
  - step_m. destruct (getRotatedBounds s h) as [[b0 h0]|] eqn:Hg; [|discriminate].
    intros [= <-]. apply cache_step_once. eapply getRotatedBounds_cache_step, Hg.
  - unfold getCenter. step_m.
    destruct (getRotatedBounds s h) as [[b0 h0]|] eqn:Hg; [|discriminate].
    intros [= <-]. apply cache_step_once. eapply getRotatedBounds_cache_step, Hg.
  - unfold hitTest. step_m.
    destruct (shapes h !! s) as [sh|]; simpl; [|discriminate].
    destruct (arrays h !! points sh) as [pts|]; simpl; [|discriminate].
    intros [= <-]. exact (fun H => H).
  - unfold hitTestBounds. step_m.
    destruct (shapes h !! s) as [sh|]; simpl; [|discriminate].
    destruct (rotation sh === lit 0).
    + destruct (getBounds s h) as [[b0 h0]|] eqn:Hg; [|discriminate].
      destruct (arrays h !! points sh) as [pts|]; simpl; [|discriminate].
      intros [= <-]. apply cache_step_once. eapply getBounds_cache_step, Hg.
    + destruct (getRotatedBounds s h) as [[b0 h0]|] eqn:Hg; [|discriminate].
      intros Hrest Hinv.
      assert (Hinv0 : computed_once h0).
      { eapply cache_step_once; [|exact Hinv].
        eapply getRotatedBounds_cache_step, Hg. }
      revert Hrest. unfold has.
      destruct (rotatedCache h0 !! s) as [rc|] eqn:Hrc; simpl.
      * rewrite Hrc. simpl. intros [= <-]. exact Hinv0.
      * destruct (arrays h0 !! points sh) as [pts|]; simpl; [|discriminate].
        rewrite lookup_insert_eq. simpl. intros [= <-].
        eapply same_cache_once; [|exact Hinv0]. split; reflexivity.
  - unfold transform. step_m.
    destruct (shapes h !! i) as [ish|]; simpl; [|discriminate].
    destruct (arrays h !! points ish) as [ipts|]; simpl; [|discriminate].
    destruct (mapM _ ipts) as [newpts|]; simpl; [|discriminate].
    destruct (shapes h !! s) as [sh|]; simpl; [|discriminate].
    rewrite lookup_insert_eq. simpl. intros [= <-].
    apply same_cache_once. split; reflexivity.
  - unfold applyStyles. step_m.
    destruct (shapes h !! s) as [sh|]; simpl; [|discriminate].
    rewrite lookup_insert_eq. simpl.
    destruct (arrays h !! points sh) as [pts|]; simpl; [|discriminate].
    rewrite lookup_insert_eq. simpl. intros [= <-].
    apply same_cache_once. split; reflexivity.
  - unfold render, renderPath, has. step_m.
    destruct (shapes h !! s) as [sh|] eqn:Hs; simpl; [|discriminate].
    destruct (pathCache h !! points sh) as [d|]; simpl.
    + destruct (arrays h !! points sh) as [pts|]; simpl; [|discriminate].
      destruct (length pts <? 2)%nat; intros [= <-]; exact (fun H => H).
    + rewrite Hs. simpl.
      destruct (arrays h !! points sh) as [pts|] eqn:Ha; simpl; [|discriminate].
      destruct (length pts <? 2)%nat eqn:Hl; simpl.
      * rewrite Ha. simpl. rewrite Hl. intros [= <-].
        apply same_cache_once. split; reflexivity.
      * destruct (pts !! 1%nat) as [p1|]; simpl; [|discriminate].
        rewrite Ha. simpl. rewrite Hl. intros [= <-].
        apply same_cache_once. split; reflexivity.
  - unfold assign_point. step_m.
    destruct (shapes h !! s) as [sh|]; simpl; [|discriminate].
    intros [= <-]. apply same_cache_once. split; reflexivity.
Qed.

Lemma run_once (ops : list (Op num)) (h h' : Heap num) :
  run ops h = Some (tt, h') -> computed_once h -> computed_once h'.
Proof.
  revert h. induction ops as [|o ops IH]; intros h; simpl.
  - step_m. intros [= <-]. exact (fun H => H).
  - unfold bind at 1.
    destruct (exec o h) as [[[] h0]|] eqn:He; [|discriminate].
    intros Hr Hinv. eapply IH; [exact Hr|]. eapply exec_once; eassumption.
Qed.

(** *** getBounds *)

Lemma getBounds_total
    (h : Heap num) (shape : loc) (sh : DrawShape num) (pts : list (Vec num)) :
  shapes h !! shape = Some sh ->
  arrays h !! points sh = Some pts ->
  exists local h1,
    getBounds shape h = Some (translateBounds local (point sh), h1) /\
    boundsCache h1 !! shape = Some local /\
    shapes h1 = shapes h /\ arrays h1 = arrays h /\
    rotatedCache h1 = rotatedCache h /\ pathCache h1 = pathCache h.
Proof.
  intros Hs Ha.
  destruct (boundsCache h !! shape) as [c|] eqn:Hc.
  - exists c, h. split; [apply getBounds_hit; assumption|].
    repeat split. exact Hc.
  - eexists _, _. split; [apply getBounds_miss; eassumption|].
    simpl. repeat split. apply lookup_insert_eq.
Qed.

(** *** getRotatedBounds at rotation 0

    With the cache entry current, the pre-rotated box is the box [getBounds]
    returns, and [getRotatedBounds] moves it by its own centre minus its own
    centre. *)
Lemma getRotatedBounds_unrotated_any
    (h : Heap num) (shape : loc) (sh : DrawShape num) (pts : list (Vec num)) :
  shapes h !! shape = Some sh ->
  arrays h !! points sh = Some pts ->
  (rotation sh === lit 0) = true ->
  (forall l r, (r === lit 0) = true ->
     getBoundsFromPoints l (Some r) = getBoundsFromPoints l None) ->
  (forall c, boundsCache h !! shape = Some c ->
     c = getBoundsFromPoints pts None) ->
  exists b h1,
    getBounds shape h = Some (b, h1) /\
    b = translateBounds (getBoundsFromPoints pts (Some (rotation sh))) (point sh) /\
    getRotatedBounds shape h
    = Some (translateBounds b
              (vec_sub (getBoundsCenter b) (getBoundsCenter b)), h1) /\
    (vec_sub (getBoundsCenter b) (getBoundsCenter b) = V2 (lit 0) (lit 0) ->
     minX b + lit 0 = minX b ->
     minY b + lit 0 = minY b ->
     getRotatedBounds shape h = Some (b, h1)).
Proof.
  intros Hs Ha Hr Hdefault Hcurrent.
  rewrite (Hdefault pts (rotation sh) Hr).
  set (local := getBoundsFromPoints pts None).
  assert (Hg : exists h1,
             getBounds shape h = Some (translateBounds local (point sh), h1)).
  { destruct (boundsCache h !! shape) as [c|] eqn:Hc.
    - exists h. rewrite (Hcurrent c eq_refl) in Hc.
      apply getBounds_hit; assumption.
    - eexists. apply getBounds_miss; assumption. }
  destruct Hg as [h1 Hg].
  set (b := translateBounds local (point sh)) in *.
  assert (Hrot : getRotatedBounds shape h
                 = Some (translateBounds b
                           (vec_sub (getBoundsCenter b) (getBoundsCenter b)), h1)).
  { unfold getRotatedBounds. step_m. rewrite Hs. simpl. rewrite Ha. simpl.
    rewrite (Hdefault pts (rotation sh) Hr). fold local. fold b.
    rewrite Hg. reflexivity. }
  exists b, h1.
  split; [exact Hg|]. split; [reflexivity|]. split; [exact Hrot|].
  intros Hzero Hx Hy. rewrite Hrot, Hzero. do 2 f_equal.
  unfold translateBounds at 1. cbn [vx vy]. rewrite Hx, Hy. reflexivity.
Qed.

(** C2 (amended): [getBounds] computes the local box of a shape at most once
    per shape identity and caches it untranslated; every call returns the
    cached local box translated by the current anchor. A second call with
    nothing changed returns the same box and leaves the heap (log included)
    as it was; after an assignment to [shape.point] alone the box keeps its
    width and height and its min corner is the cached corner plus the new
    anchor, one addition per coordinate, in every arithmetic. That is the old
    corner shifted by exactly the anchor delta wherever [+] is associative,
    as it is in exact arithmetic and is not in binary64. In every run of the
    module no shape is logged twice. *)
Theorem getBounds_caches_untranslated_box
    (h : Heap num) (shape : loc) (sh : DrawShape num) (pts : list (Vec num)) :
  shapes h !! shape = Some sh ->
  arrays h !! points sh = Some pts ->
  exists local h1,
    getBounds shape h = Some (translateBounds local (point sh), h1) /\
    boundsCache h1 !! shape = Some local /\
    (boundsCache h !! shape = None ->
     local = getBoundsFromPoints pts None /\
     computed h1 = shape :: computed h) /\
    (forall c, boundsCache h !! shape = Some c -> local = c /\ h1 = h) /\
    getBounds shape h1 = Some (translateBounds local (point sh), h1) /\
    (forall p', exists h2,
       assign_point shape p' h1 = Some (tt, h2) /\
       getBounds shape h2 = Some (translateBounds local p', h2) /\
       computed h2 = computed h1 /\
       width (translateBounds local p')
       = width (translateBounds local (point sh)) /\
       height (translateBounds local p')
       = height (translateBounds local (point sh)) /\
       minX (translateBounds local p') = minX local + vx p' /\
       minY (translateBounds local p') = minY local + vy p') /\
    ((forall a b c : num, a + (b + c) = (a + b) + c) ->
     forall delta,
       minX (translateBounds local (vec_add (point sh) delta))
       = minX (translateBounds local (point sh)) + vx delta /\
       minY (translateBounds local (vec_add (point sh) delta))
       = minY (translateBounds local (point sh)) + vy delta) /\
    (forall ops h0 h',
       computed h0 = [] -> run ops h0 = Some (tt, h') -> NoDup (computed h')).
Proof.
  intros Hs Ha.
  assert (Hagain : forall local h1,
            shapes h1 !! shape = Some sh ->
            boundsCache h1 !! shape = Some local ->
            forall p', exists h2,
              assign_point shape p' h1 = Some (tt, h2) /\
              getBounds shape h2 = Some (translateBounds local p', h2) /\
              computed h2 = computed h1 /\
              width (translateBounds local p')
              = width (translateBounds local (point sh)) /\
              height (translateBounds local p')
              = height (translateBounds local (point sh)) /\
              minX (translateBounds local p') = minX local + vx p' /\
              minY (translateBounds local p') = minY local + vy p').
  { intros local h1 Hs1 Hc1 p'.
    exists (set_shape shape (set_point p' sh) h1).
    split; [unfold assign_point; step_m; rewrite Hs1; reflexivity|].
    split; [|repeat split].
    rewrite (getBounds_hit _ shape (set_point p' sh) local);
      [reflexivity|simpl; apply lookup_insert_eq|exact Hc1]. }
  assert (Hassoc : forall local : Bounds num,
            (forall a b c : num, a + (b + c) = (a + b) + c) ->
            forall delta,
              minX (translateBounds local (vec_add (point sh) delta))
              = minX (translateBounds local (point sh)) + vx delta /\
              minY (translateBounds local (vec_add (point sh) delta))
              = minY (translateBounds local (point sh)) + vy delta).
  { intros local Hassoc delta. simpl. split; apply Hassoc. }
  assert (Hruns : forall ops h0 h',
            computed h0 = [] -> run ops h0 = Some (tt, h') ->
            NoDup (computed h')).
  { intros ops h0 h' Hnil Hrun.
    apply (run_once ops h0 h' Hrun).
    split; rewrite Hnil; [apply NoDup_nil_2|].
    intros s Hin. apply elem_of_nil in Hin. destruct Hin. }
  destruct (boundsCache h !! shape) as [c|] eqn:Hc.
  - exists c, h.
    split; [apply getBounds_hit; assumption|].
    split; [exact Hc|].
    split; [discriminate|].
    split; [intros c' [= <-]; split; reflexivity|].
    split; [apply getBounds_hit; assumption|].
    split; [apply Hagain; assumption|].
    split; [apply Hassoc|exact Hruns].
  - exists (getBoundsFromPoints pts None).
    exists (boundsCache_set shape (getBoundsFromPoints pts None)
              (log_computed shape h)).
    split; [apply getBounds_miss; assumption|].
    split; [simpl; apply lookup_insert_eq|].
    split; [intros _; split; reflexivity|].
    split; [discriminate|].
    split; [apply getBounds_hit; [exact Hs|simpl; apply lookup_insert_eq]|].
    split; [apply Hagain; [exact Hs|simpl; apply lookup_insert_eq]|].
    split; [apply Hassoc|exact Hruns].
Qed.

(** *** hitTestBounds *)

(** The unrotated branch tests the brush against the polyline in the shape's
    local frame: the sample points as stored, not translated by the anchor. *)
Lemma hitTestBounds_unrotated_local_frame
    (h : Heap num) (shape : loc) (sh : DrawShape num) (pts : list (Vec num))
    (brushBounds : Bounds num) :
  shapes h !! shape = Some sh ->
  arrays h !! points sh = Some pts ->
  (rotation sh === lit 0) = true ->
  exists bounds h1,
    getBounds shape h = Some (bounds, h1) /\
    hitTestBounds shape brushBounds h
    = Some (boundsContain brushBounds bounds
            || (0 <? length (intersectPolylineBounds pts brushBounds))%nat, h1).
Proof.
  intros Hs Ha Hr.
  destruct (getBounds_total h shape sh pts Hs Ha) as (local & h1 & Hg & _).
  eexists _, _. split; [exact Hg|].
  unfold hitTestBounds. step_m. rewrite Hs. simpl. rewrite Hr.
  rewrite Hg. rewrite Ha. reflexivity.
Qed.

(** The rotated branch tests the brush against the polyline in document
    space: every sample point is translated by the anchor, then rotated. *)
Lemma hitTestBounds_rotated_document_frame
    (h : Heap num) (shape : loc) (sh : DrawShape num) (pts : list (Vec num))
    (brushBounds : Bounds num) :
  shapes h !! shape = Some sh ->
  arrays h !! points sh = Some pts ->
  (rotation sh === lit 0) = false ->
  rotatedCache h !! shape = None ->
  exists rBounds h1,
    getRotatedBounds shape h = Some (rBounds, h1) /\
    let rotated :=
      map (fun pt => rotWith (vec_add pt (point sh)) (getBoundsCenter rBounds)
                       (rotation sh)) pts in
    hitTestBounds shape brushBounds h
    = Some (boundsContain brushBounds rBounds
            || (0 <? length (intersectPolylineBounds rotated brushBounds))%nat,
            rotatedCache_set shape rotated h1).
Proof.
  intros Hs Ha Hr Hrc.
  destruct (getBounds_total h shape sh pts Hs Ha)
    as (local & h1 & Hg & _ & _ & Ha1 & Hrc1 & _).
  assert (Hrb : getRotatedBounds shape h
                = Some (translateBounds
                          (translateBounds
                             (getBoundsFromPoints pts (Some (rotation sh)))
                             (point sh))
                          (vec_sub
                             (getBoundsCenter (translateBounds local (point sh)))
                             (getBoundsCenter
                                (translateBounds
                                   (getBoundsFromPoints pts (Some (rotation sh)))
                                   (point sh)))), h1)).
  { unfold getRotatedBounds. step_m. rewrite Hs. simpl. rewrite Ha. simpl.
    rewrite Hg. reflexivity. }
  eexists _, _. split; [exact Hrb|].
  unfold hitTestBounds. step_m. rewrite Hs. simpl. rewrite Hr, Hrb.
  unfold has. rewrite Hrc1, Hrc. simpl. rewrite Ha1, Ha. simpl.
  rewrite lookup_insert_eq. reflexivity.
Qed.

(** *** hitTest *)

(** C9: a shape with fewer than two sample points is never hit by a point
    test: [some] finds no index [i > 0]. *)
Theorem hitTest_fewer_than_two_points
    (h : Heap num) (shape : loc) (sh : DrawShape num) (pts : list (Vec num))
    (p : Vec num) :
  shapes h !! shape = Some sh ->
  arrays h !! points sh = Some pts ->
  (length pts < 2)%nat ->
  hitTest shape p h = Some (false, h).
Proof.
  intros Hs Ha Hlen.
  unfold hitTest. step_m. rewrite Hs. simpl. rewrite Ha. simpl.
  destruct pts as [|p0 [|p1 rest]]; simpl in *; try reflexivity.
  lia.
Qed.

(** *** render and renderPath *)

(** C8: a shape with zero or one sample points renders as a circle of radius
    [strokeWidth * 0.618] (never a path element), without throwing; the path
    that [renderPath] caches for its point sequence is the empty string. *)
Theorem render_dot_for_fewer_than_two_points
    (h : Heap num) (shape : loc) (sh : DrawShape num) (pts : list (Vec num)) :
  shapes h !! shape = Some sh ->
  arrays h !! points sh = Some pts ->
  (length pts < 2)%nat ->
  (exists h',
     render shape h
     = Some (circle (id sh)
               (strokeWidth (getShapeStyle (style sh)) * lit 0.618)
               (stroke (getShapeStyle (style sh))), h') /\
     (pathCache h !! points sh = None ->
      pathCache h' !! points sh = Some EmptyString) /\
     (is_Some (pathCache h !! points sh) -> h' = h)) /\
  (forall style', exists h'',
     renderPath shape style' h = Some (tt, h'') /\
     pathCache h'' !! points sh = Some EmptyString).
Proof.
  intros Hs Ha Hlen.
  assert (Hlt : (length pts <? 2)%nat = true) by (apply Nat.ltb_lt; exact Hlen).
  split.
  - unfold render, renderPath, has. step_m. rewrite Hs. simpl.
    destruct (pathCache h !! points sh) as [d|] eqn:Hc; simpl.
    + rewrite Ha. simpl. rewrite Hlt.
      eexists. split; [reflexivity|]. split; [discriminate|reflexivity].
    + rewrite Hs. simpl. rewrite Ha. simpl. rewrite Hlt. simpl.
      rewrite Ha. simpl. rewrite Hlt.
      eexists. split; [reflexivity|]. split.
      * intros _. simpl. apply lookup_insert_eq.
      * intros [d Hd]. discriminate.
  - intros style'. unfold renderPath. step_m. rewrite Hs. simpl.
    rewrite Ha. simpl. rewrite Hlt.
    eexists. split; [reflexivity|]. simpl. apply lookup_insert_eq.
Qed.

Lemma sentinel_spec (p1 : Vec num) :
  sentinel p1 = true <-> exists z, third p1 = Some z /\ (z === lit 0.5) = true.
Proof.
  unfold sentinel. destruct (third p1) as [z|].
  - split; [intros Hz; exists z; auto|].
    intros [z' [Hz' Hq]]. injection Hz' as <-. exact Hq.
  - split; [discriminate|]. intros [z [Hz _]]. discriminate.
Qed.

(** C7: with at least two sample points, the options handed to [getStroke]
    depend on the points only through the test [points[1][2] === 0.5]: when it
    holds, [simulatePressure] is [true] and no easing is given; otherwise
    [simulatePressure] is [false] and the easing is [t * t]. Size, thinning
    and tapers are the same in both cases. *)
Theorem renderPath_pressure_mode
    (h : Heap num) (shape : loc) (sh : DrawShape num) (pts : list (Vec num))
    (style' : ShapeStyles) :
  shapes h !! shape = Some sh ->
  arrays h !! points sh = Some pts ->
  (2 <= length pts)%nat ->
  exists p1 options,
    pts !! 1%nat = Some p1 /\
    renderPath shape style' h
    = Some (tt, pathCache_set (points sh)
                  (getSvgPathFromStroke (getStroke pts options)) h) /\
    (sentinel p1 = true <->
     exists z, third p1 = Some z /\ (z === lit 0.5) = true) /\
    o_simulatePressure options = Some (sentinel p1) /\
    o_easing options
    = (if sentinel p1 then None else Some (fun t => t * t)) /\
    o_size options = lit 1 + strokeWidth (getShapeStyle style') * lit 2 /\
    o_thinning options = lit 0.85 /\
    o_end_taper options = strokeWidth (getShapeStyle style') * lit 20 /\
    o_start_taper options = strokeWidth (getShapeStyle style') * lit 20.
Proof.
  intros Hs Ha Hlen.
  destruct pts as [|p0 [|p1 rest]]; simpl in Hlen; try lia.
  exists p1.
  exists (strokeOptions (getShapeStyle style')
            (if sentinel p1 then simulatePressureSettings
             else realPressureSettings)).
  split; [reflexivity|]. split.
  { unfold renderPath. step_m. rewrite Hs. simpl. rewrite Ha. reflexivity. }
  split; [apply sentinel_spec|].
  destruct (sentinel p1); repeat split.
Qed.

(** *** transform *)

Lemma transform_result
    (h : Heap num) (shape initialShape : loc) (sh ish : DrawShape num)
    (ipts : list (Vec num)) (isb bounds : Bounds num) (scaleX scaleY : num) :
  shapes h !! shape = Some sh ->
  shapes h !! initialShape = Some ish ->
  arrays h !! points ish = Some ipts ->
  boundsCache h !! initialShape = Some isb ->
  let newpts := map (remap bounds isb scaleX scaleY) ipts in
  let newBounds := getBoundsFromPoints newpts None in
  let a := fresh (dom (arrays h)) in
  let sh' :=
    set_point (vec_sub (V2 (minX bounds) (minY bounds))
                       (V2 (minX newBounds) (minY newBounds)))
      (set_points a sh) in
  transform shape bounds initialShape scaleX scaleY h
  = Some (tt, set_shape shape sh' (set_shape shape (set_points a sh)
                                     (set_array a newpts h))).
Proof.
  intros Hs Hi Ha Hc.
  unfold transform. step_m. rewrite Hc, Hi. simpl. rewrite Ha. simpl.
  rewrite mapM_transform_point. simpl. rewrite Hs. simpl.
  rewrite lookup_insert_eq. reflexivity.
Qed.

(** What [transform] computes for every sample point and for the anchor, in
    any arithmetic: the remapped coordinates, two per point, and the target
    corner minus the corner of the new points' box. *)
Lemma transform_mirrors_any
    (h : Heap num) (shape initialShape : loc) (sh ish : DrawShape num)
    (ipts : list (Vec num)) (isb bounds : Bounds num) (scaleX scaleY : num) :
  shapes h !! shape = Some sh ->
  shapes h !! initialShape = Some ish ->
  arrays h !! points ish = Some ipts ->
  boundsCache h !! initialShape = Some isb ->
  exists h' sh' newpts,
    transform shape bounds initialShape scaleX scaleY h = Some (tt, h') /\
    shapes h' !! shape = Some sh' /\
    arrays h' !! points sh' = Some newpts /\
    length newpts = length ipts /\
    point sh'
    = V2 (minX bounds - minX (getBoundsFromPoints newpts None))
         (minY bounds - minY (getBoundsFromPoints newpts None)) /\
    forall i p p', ipts !! i = Some p -> newpts !! i = Some p' ->
      vx p' = width bounds *
                (if scaleX <? lit 0 then lit 1 - vx p / width isb
                 else vx p / width isb) /\
      vy p' = height bounds *
                (if scaleY <? lit 0 then lit 1 - vy p / height isb
                 else vy p / height isb) /\
      third p' = None.
Proof.
  intros Hs Hi Ha Hc.
  eexists _, _, _.
  split; [apply (transform_result h shape initialShape sh ish ipts isb);
          assumption|].
  simpl. rewrite lookup_insert_eq. split; [reflexivity|]. simpl.
  rewrite lookup_insert_eq. split; [reflexivity|].
  split; [apply length_map|]. split; [reflexivity|].
  intros i p p' Hp Hp'. rewrite lookup_map, Hp in Hp'. injection Hp' as <-.
  repeat split.
Qed.

(** The same at both scale factors 1 and the target box the cached box moved
    to the anchor of the initial shape: each coordinate is divided by the
    cached extent and multiplied by it again. *)
Lemma transform_identity_any
    (h : Heap num) (shape initialShape : loc) (sh ish : DrawShape num)
    (ipts : list (Vec num)) (isb : Bounds num) :
  shapes h !! shape = Some sh ->
  shapes h !! initialShape = Some ish ->
  arrays h !! points ish = Some ipts ->
  boundsCache h !! initialShape = Some isb ->
  (lit 1 <? lit 0) = false ->
  let bounds := translateBounds isb (point ish) in
  let newpts :=
    map (fun p => V2 (width isb * (vx p / width isb))
                     (height isb * (vy p / height isb))) ipts in
  let newBounds := getBoundsFromPoints newpts None in
  exists h' sh',
    transform shape bounds initialShape (lit 1) (lit 1) h = Some (tt, h') /\
    shapes h' !! shape = Some sh' /\
    arrays h' !! points sh' = Some newpts /\
    point sh'
    = V2 (minX bounds - minX newBounds) (minY bounds - minY newBounds) /\
    (boundsCache h !! shape = None ->
     exists h'',
       getBounds shape h'
       = Some (translateBounds newBounds (point sh'), h'')).
Proof.
  intros Hs Hi Ha Hc Hpos bounds newpts newBounds.
  assert (Hpts : map (remap bounds isb (lit 1) (lit 1)) ipts = newpts).
  { apply map_ext. intros p. unfold remap. rewrite Hpos. reflexivity. }
  pose proof (transform_result h shape initialShape sh ish ipts isb bounds
                (lit 1) (lit 1) Hs Hi Ha Hc) as Ht.
  cbv zeta in Ht. rewrite Hpts in Ht. fold newBounds in Ht.
  set (a := fresh (dom (arrays h))) in *.
  set (sh' := set_point (vec_sub (V2 (minX bounds) (minY bounds))
                           (V2 (minX newBounds) (minY newBounds)))
                (set_points a sh)) in *.
  set (h' := set_shape shape sh' _) in *.
  exists h', sh'. split; [exact Ht|].
  split; [apply lookup_insert_eq|].
  split; [simpl; apply lookup_insert_eq|].
  split; [reflexivity|].
  intros Hmiss.
  eexists. apply (getBounds_miss h' shape sh' newpts).
  - apply lookup_insert_eq.
  - exact Hmiss.
  - simpl. apply lookup_insert_eq.
Qed.

Lemma mapM_transform_point_two_entries (bounds : Bounds num)
    (o : option (Bounds num)) (sx sy : num) (l k : list (Vec num)) :
  mapM (transform_point bounds o sx sy) l = Some k ->
  Forall (fun p => length (components p) = 2%nat /\ third p = None) k.
Proof.
  destruct o as [isb|].
  - rewrite mapM_transform_point. intros [= <-].
    apply Forall_forall. intros p Hp.
    apply list_elem_of_In, in_map_iff in Hp. destruct Hp as [q [<- _]].
    split; reflexivity.
  - destruct l as [|p l]; simpl; [|discriminate].
    intros [= <-]. constructor.
Qed.

(** Whenever [transform] returns, with or without a cached box, the points it
    has assigned have two entries each. *)
Lemma transform_returns_two_entry_points
    (h h' : Heap num) (shape initialShape : loc) (bounds : Bounds num)
    (scaleX scaleY : num) :
  transform shape bounds initialShape scaleX scaleY h = Some (tt, h') ->
  exists sh' newpts,
    shapes h' !! shape = Some sh' /\
    arrays h' !! points sh' = Some newpts /\
    Forall (fun p => length (components p) = 2%nat /\ third p = None) newpts.
Proof.
  unfold transform. step_m.
  destruct (shapes h !! initialShape) as [ish|]; simpl; [|discriminate].
  destruct (arrays h !! points ish) as [ipts|]; simpl; [|discriminate].
  destruct (mapM _ ipts) as [newpts|] eqn:Hm; simpl; [|discriminate].
  destruct (shapes h !! shape) as [sh|]; simpl; [|discriminate].
  rewrite lookup_insert_eq. simpl. intros [= <-].
  eexists _, newpts. simpl. rewrite lookup_insert_eq.
  split; [reflexivity|]. simpl. rewrite lookup_insert_eq.
  split; [reflexivity|].
  eapply mapM_transform_point_two_entries. exact Hm.
Qed.

(** C10: [transform] rebuilds every sample point as a two-entry array: the
    third (pressure) entry of each point of the pre-transform shape is gone
    from the shape's new points, and with it the [0.5] sentinel. *)
Theorem transform_discards_pressure
    (h : Heap num) (shape initialShape : loc) (sh ish : DrawShape num)
    (ipts : list (Vec num)) (isb bounds : Bounds num) (scaleX scaleY : num) :
  shapes h !! shape = Some sh ->
  shapes h !! initialShape = Some ish ->
  arrays h !! points ish = Some ipts ->
  boundsCache h !! initialShape = Some isb ->
  exists h' sh' newpts,
    transform shape bounds initialShape scaleX scaleY h = Some (tt, h') /\
    shapes h' !! shape = Some sh' /\
    arrays h' !! points sh' = Some newpts /\
    length newpts = length ipts /\
    Forall (fun p => length (components p) = 2%nat /\ third p = None
                     /\ sentinel p = false) newpts.
Proof.
  intros Hs Hi Ha Hc.
  eexists _, _, _.
  split; [apply (transform_result h shape initialShape sh ish ipts isb);
          assumption|].
  simpl. rewrite lookup_insert_eq. split; [reflexivity|]. simpl.
  rewrite lookup_insert_eq. split; [reflexivity|].
  split; [apply length_map|].
  apply Forall_forall. intros p Hp.
  apply list_elem_of_In, in_map_iff in Hp. destruct Hp as [q [<- _]].
  repeat split.
Qed.

(** *** applyStyles *)

(** C6: whatever the partial style, [applyStyles] leaves the shape with
    [isFilled = false] and [dash = Solid], the other keys merged, and a
    [points] reference that differs from the prior one and holds the same
    values in the same order (the prior array is untouched). *)
Theorem applyStyles_forces_style_and_new_points
    (h : Heap num) (shape : loc) (sh : DrawShape num) (pts : list (Vec num))
    (partialStyle : PartialStyles) :
  shapes h !! shape = Some sh ->
  arrays h !! points sh = Some pts ->
  exists h' sh',
    applyStyles shape partialStyle h = Some (tt, h') /\
    shapes h' !! shape = Some sh' /\
    isFilled (style sh') = false /\
    dash (style sh') = Solid /\
    color (style sh') = default (color (style sh)) (p_color partialStyle) /\
    size (style sh') = default (size (style sh)) (p_size partialStyle) /\
    points sh' <> points sh /\
    arrays h' !! points sh' = Some pts /\
    arrays h' !! points sh = Some pts.
Proof.
  intros Hs Ha.
  unfold applyStyles. step_m. rewrite Hs. simpl.
  rewrite lookup_insert_eq. simpl. rewrite Ha. simpl.
  rewrite lookup_insert_eq. simpl.
  eexists _, _. split; [reflexivity|]. simpl.
  rewrite lookup_insert_eq.
  repeat split; simpl.
  - apply fresh_array_ne with pts. exact Ha.
  - apply lookup_insert_eq.
  - rewrite lookup_insert_ne; [exact Ha|].
    apply fresh_array_ne with pts. exact Ha.
Qed.

End Structural.

(** ** Properties of the arithmetic, in exact (real) arithmetic *)

Section Exact.
Context {U : Utils R}.
Local Open Scope js_scope.

Lemma lit_0 : lit (num := R) 0 = 0%R.
Proof. unfold lit; simpl. unfold Q2R; simpl. lra. Qed.

Lemma lit_1 : lit (num := R) 1 = 1%R.
Proof. unfold lit; simpl. unfold Q2R; simpl. lra. Qed.

Lemma lit_2 : lit (num := R) 2 = 2%R.
Proof. unfold lit; simpl. unfold Q2R; simpl. lra. Qed.

Lemma nlt_true (a b : R) : (a <? b) = true <-> (a < b)%R.
Proof. simpl. destruct (Rlt_dec a b); split; intros; try lra; congruence. Qed.

Lemma nlt_false (a b : R) : (a <? b) = false <-> (b <= a)%R.
Proof. simpl. destruct (Rlt_dec a b); split; intros; try lra; congruence. Qed.

Lemma nseq_true (a b : R) : (a === b) = true <-> a = b.
Proof. simpl. destruct (Req_dec_T a b); split; intros; congruence. Qed.

Lemma Bounds_eq (a b : Bounds R) :
  minX a = minX b -> minY a = minY b -> width a = width b ->
  height a = height b -> a = b.
Proof. destruct a, b; simpl; intros; subst; reflexivity. Qed.

(** *** getRotatedBounds *)

(** In exact arithmetic a centre minus itself is the zero vector and adding
    zero changes nothing: at rotation 0 and with the cache entry current,
    [getRotatedBounds] returns the box [getBounds] returns. *)
Lemma getRotatedBounds_unrotated_exact
    (h : Heap R) (shape : loc) (sh : DrawShape R) (pts : list (Vec R)) :
  shapes h !! shape = Some sh ->
  arrays h !! points sh = Some pts ->
  (rotation sh === lit 0) = true ->
  (forall l r, (r === lit 0) = true ->
     getBoundsFromPoints l (Some r) = getBoundsFromPoints l None) ->
  (forall c, boundsCache h !! shape = Some c ->
     c = getBoundsFromPoints pts None) ->
  exists b h1,
    getBounds shape h = Some (b, h1) /\
    getRotatedBounds shape h = Some (b, h1) /\
    b = translateBounds (getBoundsFromPoints pts (Some (rotation sh))) (point sh) /\
    vec_sub (getBoundsCenter b)
      (getBoundsCenter
         (translateBounds (getBoundsFromPoints pts (Some (rotation sh)))
            (point sh)))
    = V2 0%R 0%R.
Proof.
  intros Hs Ha Hr Hdefault Hfresh.
  rewrite (Hdefault pts (rotation sh) Hr).
  set (local := getBoundsFromPoints pts None).
  assert (Hg : exists h1,
             getBounds shape h = Some (translateBounds local (point sh), h1)).
  { destruct (boundsCache h !! shape) as [c|] eqn:Hc.
    - exists h. rewrite (Hfresh c eq_refl) in Hc.
      apply getBounds_hit; assumption.
    - eexists. apply getBounds_miss; assumption. }
  destruct Hg as [h1 Hg].
  assert (Hzero : vec_sub (getBoundsCenter (translateBounds local (point sh)))
                    (getBoundsCenter (translateBounds local (point sh)))
                  = V2 0%R 0%R).
  { unfold vec_sub. simpl. f_equal; lra. }
  exists (translateBounds local (point sh)), h1.
  split; [exact Hg|]. split; [|split; [reflexivity|exact Hzero]].
  unfold getRotatedBounds. step_m. rewrite Hs. simpl. rewrite Ha. simpl.
  rewrite (Hdefault pts (rotation sh) Hr). fold local. rewrite Hg.
  rewrite Hzero. do 2 f_equal.
  apply Bounds_eq; simpl; lra.
Qed.

(** *** transform *)

Lemma remap_identity (bounds isb : Bounds R) (scaleX scaleY : R) (p : Vec R) :
  width bounds = width isb -> height bounds = height isb ->
  width isb <> 0%R -> height isb <> 0%R ->
  (scaleX <? lit 0) = false -> (scaleY <? lit 0) = false ->
  remap bounds isb scaleX scaleY p = V2 (vx p) (vy p).
Proof.
  intros Hw Hh Hw0 Hh0 Hx Hy. unfold remap. rewrite Hx, Hy, Hw, Hh.
  simpl. f_equal; field; assumption.
Qed.

(** In exact arithmetic, dividing by a non-zero extent and multiplying by it
    again returns the coordinate: the identity resize keeps the x and y of
    every sample point, and the anchor puts the corner of the new points' box
    on the corner of the target box. *)
Lemma transform_identity_exact
    (h : Heap R) (shape initialShape : loc) (sh ish : DrawShape R)
    (ipts : list (Vec R)) (isb : Bounds R) :
  shapes h !! shape = Some sh ->
  shapes h !! initialShape = Some ish ->
  arrays h !! points ish = Some ipts ->
  boundsCache h !! initialShape = Some isb ->
  width isb <> 0%R ->
  height isb <> 0%R ->
  let bounds := translateBounds isb (point ish) in
  let newpts := map (fun p => V2 (vx p) (vy p)) ipts in
  let newBounds := getBoundsFromPoints newpts None in
  exists h' sh',
    transform shape bounds initialShape (lit 1) (lit 1) h = Some (tt, h') /\
    shapes h' !! shape = Some sh' /\
    arrays h' !! points sh' = Some newpts /\
    minX (translateBounds newBounds (point sh')) = minX bounds /\
    minY (translateBounds newBounds (point sh')) = minY bounds /\
    (boundsCache h !! shape = None ->
     exists b h'',
       getBounds shape h' = Some (b, h'') /\
       minX b = minX bounds /\ minY b = minY bounds).
Proof.
  intros Hs Hi Ha Hc Hw Hh bounds newpts newBounds.
  assert (Hpts : map (remap bounds isb (lit 1) (lit 1)) ipts = newpts).
  { apply map_ext. intros p. apply remap_identity; try assumption;
      try reflexivity; apply nlt_false; rewrite lit_0, lit_1; lra. }
  pose proof (transform_result h shape initialShape sh ish ipts isb bounds
                (lit 1) (lit 1) Hs Hi Ha Hc) as Ht.
  cbv zeta in Ht. rewrite Hpts in Ht. fold newBounds in Ht.
  eexists _, _. split; [exact Ht|].
  simpl. rewrite lookup_insert_eq. split; [reflexivity|]. simpl.
  rewrite lookup_insert_eq. split; [reflexivity|].
  split; [lra|]. split; [lra|].
  intros Hmiss.
  eexists _, _. split.
  - eapply getBounds_miss; simpl.
    + apply lookup_insert_eq.
    + exact Hmiss.
    + apply lookup_insert_eq.
  - fold newBounds. simpl. split; lra.
Qed.

Lemma elem_of_map {A B} (f : A -> B) (l : list A) (y : B) :
  y ∈ map f l <-> exists x, x ∈ l /\ y = f x.
Proof.
  rewrite list_elem_of_In, in_map_iff. split.
  - intros (x & <- & Hx). exists x. split; [apply list_elem_of_In; exact Hx|reflexivity].
  - intros (x & Hx & ->). exists x. split; [reflexivity|apply list_elem_of_In; exact Hx].
Qed.

(** The least coordinate of the images of a point set under a map that acts
    as [g] on that coordinate is [g e], when [e] is a coordinate of the set
    at which [g] is least. *)
Lemma least_of_images (c : Vec R -> R) (g : R -> R) (F : Vec R -> Vec R)
    (ipts : list (Vec R)) (e m : R) :
  (forall p, c (F p) = g (c p)) ->
  (exists p, p ∈ ipts /\ c p = e) ->
  (forall p, p ∈ ipts -> (g e <= g (c p))%R) ->
  (forall q, q ∈ map F ipts -> (m <= c q)%R) ->
  (exists q, q ∈ map F ipts /\ c q = m) ->
  m = g e.
Proof.
  intros HF (pe & Hpe & Hce) Hmono Hlow (q & Hq & Hcq).
  apply elem_of_map in Hq. destruct Hq as (p & Hp & ->).
  apply Rle_antisym.
  - rewrite <- Hce, <- HF. apply Hlow. apply elem_of_map. eauto.
  - rewrite <- Hcq, HF. apply Hmono. exact Hp.
Qed.

Lemma flipped_antitone (W W' x hi : R) :
  (0 < W)%R -> (0 < W')%R -> (x <= hi)%R ->
  (W' * (1 - hi / W) <= W' * (1 - x / W))%R.
Proof.
  intros HW HW' Hx.
  apply Rmult_le_compat_l; [lra|].
  assert (x / W <= hi / W)%R; [|lra].
  unfold Rdiv. apply Rmult_le_compat_r; [|exact Hx].
  apply Rlt_le, Rinv_0_lt_compat, HW.
Qed.

Lemma scaled_monotone (W W' lo x : R) :
  (0 < W)%R -> (0 < W')%R -> (lo <= x)%R ->
  (W' * (lo / W) <= W' * (x / W))%R.
Proof.
  intros HW HW' Hx.
  apply Rmult_le_compat_l; [lra|].
  unfold Rdiv. apply Rmult_le_compat_r; [|exact Hx].
  apply Rlt_le, Rinv_0_lt_compat, HW.
Qed.

(** The least remapped coordinate of a point set whose coordinates span
    [lo, lo + extent]. *)
Lemma least_remapped (c : Vec R -> R) (F : Vec R -> Vec R)
    (ipts : list (Vec R)) (extent' extent scale lo m : R) :
  (0 < extent)%R -> (0 < extent')%R ->
  (forall p, c (F p) = remap1 extent' extent scale (c p)) ->
  (forall p, p ∈ ipts -> (lo <= c p <= lo + extent)%R) ->
  (exists p, p ∈ ipts /\ c p = lo) ->
  (exists p, p ∈ ipts /\ c p = (lo + extent)%R) ->
  (forall q, q ∈ map F ipts -> (m <= c q)%R) ->
  (exists q, q ∈ map F ipts /\ c q = m) ->
  m = remap1 extent' extent scale
        (if scale <? lit 0 then (lo + extent)%R else lo).
Proof.
  intros HW HW' HF Hin Hlo Hhi Hlow Hatt.
  apply (least_of_images c (remap1 extent' extent scale) F ipts); try assumption.
  - destruct (scale <? lit 0); assumption.
  - intros p Hp. specialize (Hin p Hp). unfold remap1.
    destruct (scale <? lit 0).
    + rewrite lit_1. apply flipped_antitone; lra.
    + apply scaled_monotone; lra.
Qed.

(** The normalized offset of a remapped coordinate, measured from the least
    remapped coordinate. *)
Lemma remap1_normalized (extent' extent scale lo x : R) :
  (0 < extent)%R -> (0 < extent')%R ->
  normalized (remap1 extent' extent scale x)
    (remap1 extent' extent scale
       (if scale <? lit 0 then (lo + extent)%R else lo)) extent'
  = if scale <? lit 0 then (1 - normalized x lo extent)%R
    else normalized x lo extent.
Proof.
  intros HW HW'. unfold normalized, remap1.
  destruct (scale <? lit 0); rewrite ?lit_1; simpl; field; lra.
Qed.

(** In exact arithmetic and in boxes of positive width and height, a negative
    scale factor mirrors the normalized offsets of the sample points, and a
    non-negative one keeps them. *)
Lemma transform_mirrors_exact
    (h : Heap R) (shape initialShape : loc) (sh ish : DrawShape R)
    (ipts : list (Vec R)) (isb bounds : Bounds R) (scaleX scaleY : R) :
  shapes h !! shape = Some sh ->
  shapes h !! initialShape = Some ish ->
  arrays h !! points ish = Some ipts ->
  boundsCache h !! initialShape = Some isb ->
  (forall l, l <> [] -> box_encloses (getBoundsFromPoints l None) l) ->
  box_encloses isb ipts ->
  (0 < width isb)%R -> (0 < height isb)%R ->
  (0 < width bounds)%R -> (0 < height bounds)%R ->
  exists h' sh' newpts,
    transform shape bounds initialShape scaleX scaleY h = Some (tt, h') /\
    shapes h' !! shape = Some sh' /\
    arrays h' !! points sh' = Some newpts /\
    length newpts = length ipts /\
    forall i p p', ipts !! i = Some p -> newpts !! i = Some p' ->
      normalized (vx p' + vx (point sh')) (minX bounds) (width bounds)
      = (if scaleX <? lit 0
         then (1 - normalized (vx p) (minX isb) (width isb))%R
         else normalized (vx p) (minX isb) (width isb)) /\
      normalized (vy p' + vy (point sh')) (minY bounds) (height bounds)
      = (if scaleY <? lit 0
         then (1 - normalized (vy p) (minY isb) (height isb))%R
         else normalized (vy p) (minY isb) (height isb)) /\
      (vx p' / width bounds)%R
      = (if scaleX <? lit 0 then (1 - vx p / width isb)%R
         else (vx p / width isb)%R) /\
      (vy p' / height bounds)%R
      = (if scaleY <? lit 0 then (1 - vy p / height isb)%R
         else (vy p / height isb)%R).
Proof.
  intros Hs Hi Ha Hc Hbox Hisb HW HH HW' HH'.
  pose proof (transform_result h shape initialShape sh ish ipts isb bounds
                scaleX scaleY Hs Hi Ha Hc) as Ht.
  cbv zeta in Ht.
  set (newpts := map (remap bounds isb scaleX scaleY) ipts) in *.
  set (nb := getBoundsFromPoints newpts None) in *.
  eexists _, _, newpts. split; [exact Ht|].
  simpl. rewrite lookup_insert_eq. split; [reflexivity|]. simpl.
  rewrite lookup_insert_eq. split; [reflexivity|].
  split; [apply length_map|].
  intros i p p' Hp Hp'.
  unfold newpts in Hp'. rewrite lookup_map, Hp in Hp'. injection Hp' as <-.
  assert (Hne : newpts <> []).
  { unfold newpts. destruct ipts; [discriminate|]. discriminate. }
  destruct (Hbox newpts Hne) as (Hin' & Hx0' & _ & Hy0' & _).
  destruct Hisb as (Hin & Hx0 & Hx1 & Hy0 & Hy1).
  assert (Hmx : minX nb
                = remap1 (width bounds) (width isb) scaleX
                    (if scaleX <? lit 0 then (minX isb + width isb)%R
                     else minX isb)).
  { apply (least_remapped vx (remap bounds isb scaleX scaleY) ipts);
      try assumption.
    - intros q. reflexivity.
    - intros q Hq. apply (Hin q Hq).
    - intros q Hq. apply (Hin' q Hq). }
  assert (Hmy : minY nb
                = remap1 (height bounds) (height isb) scaleY
                    (if scaleY <? lit 0 then (minY isb + height isb)%R
                     else minY isb)).
  { apply (least_remapped vy (remap bounds isb scaleX scaleY) ipts);
      try assumption.
    - intros q. reflexivity.
    - intros q Hq. apply (Hin q Hq).
    - intros q Hq. apply (Hin' q Hq). }
  split; [|split; [|split]].
  - transitivity (normalized (remap1 (width bounds) (width isb) scaleX (vx p))
                    (minX nb) (width bounds)).
    + unfold normalized, remap1. simpl. f_equal. lra.
    + rewrite Hmx. apply remap1_normalized; assumption.
  - transitivity (normalized (remap1 (height bounds) (height isb) scaleY (vy p))
                    (minY nb) (height bounds)).
    + unfold normalized, remap1. simpl. f_equal. lra.
    + rewrite Hmy. apply remap1_normalized; assumption.
  - unfold remap. simpl.
    destruct (Rlt_dec scaleX (Q2R 0)); unfold Q2R; simpl; field; lra.
  - unfold remap. simpl.
    destruct (Rlt_dec scaleY (Q2R 0)); unfold Q2R; simpl; field; lra.
Qed.

End Exact.

(** ** The claims about arithmetic, in binary64 and in exact arithmetic *)

Section Models.
Local Open Scope js_scope.

(** C3 (amended): for a shape whose rotation is 0 and whose cache entry, if
    there is one, is the box of its present points, in every arithmetic the
    pre-rotated box is the box [getBounds] returns and [getRotatedBounds]
    returns that box moved by its centre minus its centre; so it returns the
    box of [getBounds] wherever that difference is the zero vector and adding
    zero leaves the min corner as it is. In exact arithmetic that is always
    so. The constructor is taken to read a rotation equal to 0 as no
    rotation. *)
Theorem getRotatedBounds_unrotated :
  (forall (num : Type) (N : Number num) (U : Utils num)
          (h : Heap num) (shape : loc) (sh : DrawShape num)
          (pts : list (Vec num)),
     shapes h !! shape = Some sh ->
     arrays h !! points sh = Some pts ->
     (rotation sh === lit 0) = true ->
     (forall l r, (r === lit 0) = true ->
        getBoundsFromPoints l (Some r) = getBoundsFromPoints l None) ->
     (forall c, boundsCache h !! shape = Some c ->
        c = getBoundsFromPoints pts None) ->
     exists b h1,
       getBounds shape h = Some (b, h1) /\
       b = translateBounds (getBoundsFromPoints pts (Some (rotation sh)))
             (point sh) /\
       getRotatedBounds shape h
       = Some (translateBounds b
                 (vec_sub (getBoundsCenter b) (getBoundsCenter b)), h1) /\
       (vec_sub (getBoundsCenter b) (getBoundsCenter b) = V2 (lit 0) (lit 0) ->
        minX b + lit 0 = minX b ->
        minY b + lit 0 = minY b ->
        getRotatedBounds shape h = Some (b, h1))) /\
  (forall (U : Utils R) (h : Heap R) (shape : loc) (sh : DrawShape R)
          (pts : list (Vec R)),
     shapes h !! shape = Some sh ->
     arrays h !! points sh = Some pts ->
     (rotation sh === lit 0) = true ->
     (forall l r, (r === lit 0) = true ->
        getBoundsFromPoints l (Some r) = getBoundsFromPoints l None) ->
     (forall c, boundsCache h !! shape = Some c ->
        c = getBoundsFromPoints pts None) ->
     exists b h1,
       getBounds shape h = Some (b, h1) /\
       getRotatedBounds shape h = Some (b, h1) /\
       b = translateBounds (getBoundsFromPoints pts (Some (rotation sh)))
             (point sh) /\
       vec_sub (getBoundsCenter b)
         (getBoundsCenter
            (translateBounds (getBoundsFromPoints pts (Some (rotation sh)))
               (point sh)))
       = V2 0%R 0%R).
Proof.
  split.
  - intros num N U h shape sh pts Hs Ha Hr Hdefault Hcurrent.
    apply getRotatedBounds_unrotated_any; assumption.
  - intros U h shape sh pts Hs Ha Hr Hdefault Hcurrent.
    apply getRotatedBounds_unrotated_exact; assumption.
Qed.

(** C4 (amended): with the pre-transform box cached, [transform] with both
    scale factors 1 and the target box equal to the original document-space
    bounds gives every sample point [[x, y, ...]] the two entries
    [[W * (x / W), H * (y / H)]], for the cached width [W] and height [H],
    and sets the anchor to the target corner minus the corner of the new
    points' box, in every arithmetic. In exact arithmetic and for [W] and [H]
    other than 0, the x and y of every point are as they were and the corner
    of the new bounds is the corner of the target box. *)
Theorem transform_identity :
  (forall (num : Type) (N : Number num) (U : Utils num)
          (h : Heap num) (shape initialShape : loc) (sh ish : DrawShape num)
          (ipts : list (Vec num)) (isb : Bounds num),
     shapes h !! shape = Some sh ->
     shapes h !! initialShape = Some ish ->
     arrays h !! points ish = Some ipts ->
     boundsCache h !! initialShape = Some isb ->
     (lit 1 <? lit 0) = false ->
     let bounds := translateBounds isb (point ish) in
     let newpts :=
       map (fun p => V2 (width isb * (vx p / width isb))
                        (height isb * (vy p / height isb))) ipts in
     let newBounds := getBoundsFromPoints newpts None in
     exists h' sh',
       transform shape bounds initialShape (lit 1) (lit 1) h = Some (tt, h') /\
       shapes h' !! shape = Some sh' /\
       arrays h' !! points sh' = Some newpts /\
       point sh'
       = V2 (minX bounds - minX newBounds) (minY bounds - minY newBounds) /\
       (boundsCache h !! shape = None ->
        exists h'',
          getBounds shape h'
          = Some (translateBounds newBounds (point sh'), h''))) /\
  (forall (U : Utils R) (h : Heap R) (shape initialShape : loc)
          (sh ish : DrawShape R) (ipts : list (Vec R)) (isb : Bounds R),
     shapes h !! shape = Some sh ->
     shapes h !! initialShape = Some ish ->
     arrays h !! points ish = Some ipts ->
     boundsCache h !! initialShape = Some isb ->
     width isb <> 0%R ->
     height isb <> 0%R ->
     let bounds := translateBounds isb (point ish) in
     let newpts := map (fun p => V2 (vx p) (vy p)) ipts in
     let newBounds := getBoundsFromPoints newpts None in
     exists h' sh',
       transform shape bounds initialShape (lit 1) (lit 1) h = Some (tt, h') /\
       shapes h' !! shape = Some sh' /\
       arrays h' !! points sh' = Some newpts /\
       minX (translateBounds newBounds (point sh')) = minX bounds /\
       minY (translateBounds newBounds (point sh')) = minY bounds /\
       (boundsCache h !! shape = None ->
        exists b h'',
          getBounds shape h' = Some (b, h'') /\
          minX b = minX bounds /\ minY b = minY bounds)).
Proof.
  split.
  - intros num N U h shape initialShape sh ish ipts isb Hs Hi Ha Hc Hpos.
    apply (transform_identity_any h shape initialShape sh ish ipts isb);
      assumption.
  - intros U h shape initialShape sh ish ipts isb Hs Hi Ha Hc Hw Hh.
    apply (transform_identity_exact h shape initialShape sh ish ipts isb);
      assumption.
Qed.

(** C5 (amended): with the pre-transform box cached, [transform] gives every
    sample point the x [W' * (1 - x / W)] when [scaleX] is negative and
    [W' * (x / W)] otherwise, for the cached width [W] and the target width
    [W'], and the same for y with the heights and [scaleY], in every
    arithmetic. In exact arithmetic, when the cached box is the box of the
    points and both boxes have positive width and height, the normalized
    x-offset of every new point inside the target box is 1 minus the
    normalized x-offset of the old point inside the pre-transform local
    bounds for a negative [scaleX], and that offset itself otherwise; and the
    same for y. The bounds constructor is taken to compute the box of a point
    set. *)
Theorem transform_mirrors :
  (forall (num : Type) (N : Number num) (U : Utils num)
          (h : Heap num) (shape initialShape : loc) (sh ish : DrawShape num)
          (ipts : list (Vec num)) (isb bounds : Bounds num)
          (scaleX scaleY : num),
     shapes h !! shape = Some sh ->
     shapes h !! initialShape = Some ish ->
     arrays h !! points ish = Some ipts ->
     boundsCache h !! initialShape = Some isb ->
     exists h' sh' newpts,
       transform shape bounds initialShape scaleX scaleY h = Some (tt, h') /\
       shapes h' !! shape = Some sh' /\
       arrays h' !! points sh' = Some newpts /\
       length newpts = length ipts /\
       point sh'
       = V2 (minX bounds - minX (getBoundsFromPoints newpts None))
            (minY bounds - minY (getBoundsFromPoints newpts None)) /\
       forall i p p', ipts !! i = Some p -> newpts !! i = Some p' ->
         vx p' = width bounds *
                   (if scaleX <? lit 0 then lit 1 - vx p / width isb
                    else vx p / width isb) /\
         vy p' = height bounds *
                   (if scaleY <? lit 0 then lit 1 - vy p / height isb
                    else vy p / height isb) /\
         third p' = None) /\
  (forall (U : Utils R) (h : Heap R) (shape initialShape : loc)
          (sh ish : DrawShape R) (ipts : list (Vec R)) (isb bounds : Bounds R)
          (scaleX scaleY : R),
     shapes h !! shape = Some sh ->
     shapes h !! initialShape = Some ish ->
     arrays h !! points ish = Some ipts ->
     boundsCache h !! initialShape = Some isb ->
     (forall l, l <> [] -> box_encloses (getBoundsFromPoints l None) l) ->
     box_encloses isb ipts ->
     (0 < width isb)%R -> (0 < height isb)%R ->
     (0 < width bounds)%R -> (0 < height bounds)%R ->
     exists h' sh' newpts,
       transform shape bounds initialShape scaleX scaleY h = Some (tt, h') /\
       shapes h' !! shape = Some sh' /\
       arrays h' !! points sh' = Some newpts /\
       length newpts = length ipts /\
       forall i p p', ipts !! i = Some p -> newpts !! i = Some p' ->
         normalized (vx p' + vx (point sh')) (minX bounds) (width bounds)
         = (if scaleX <? lit 0
            then (1 - normalized (vx p) (minX isb) (width isb))%R
            else normalized (vx p) (minX isb) (width isb)) /\
         normalized (vy p' + vy (point sh')) (minY bounds) (height bounds)
         = (if scaleY <? lit 0
            then (1 - normalized (vy p) (minY isb) (height isb))%R
            else normalized (vy p) (minY isb) (height isb)) /\
         (vx p' / width bounds)%R
         = (if scaleX <? lit 0 then (1 - vx p / width isb)%R
            else (vx p / width isb)%R) /\
         (vy p' / height bounds)%R
         = (if scaleY <? lit 0 then (1 - vy p / height isb)%R
            else (vy p / height isb)%R)).
Proof.
  split.
  - intros num N U h shape initialShape sh ish ipts isb bounds scaleX scaleY
      Hs Hi Ha Hc.
    apply (transform_mirrors_any h shape initialShape sh ish ipts isb);
      assumption.
  - intros U h shape initialShape sh ish ipts isb bounds scaleX scaleY
      Hs Hi Ha Hc Hbox Hisb HW HH HW' HH'.
    apply (transform_mirrors_exact h shape initialShape sh ish ipts isb);
      assumption.
Qed.

End Models.

(** ** The module at concrete inputs *)

Section Concrete.
Local Open Scope js_scope.

(** *** The sample collaborators meet what the theorems ask of them *)

Lemma sample_default_rotation {num} `{Number num} (l : list (Vec num)) (r : num) :
  (r === lit 0) = true ->
  sample_getBoundsFromPoints l (Some r) = sample_getBoundsFromPoints l None.
Proof. intros Hr. unfold sample_getBoundsFromPoints. rewrite Hr. reflexivity. Qed.

Lemma least_spec (l : list R) (x0 : R) :
  (forall x, x ∈ x0 :: l -> (least x0 l <= x)%R) /\ least x0 l ∈ x0 :: l.
Proof.
  revert x0. induction l as [|a l IH]; intros x0.
  - simpl. split; [|left].
    intros x Hx. apply list_elem_of_singleton in Hx. subst. lra.
  - change (least x0 (a :: l)) with (least (if a <? x0 then a else x0) l).
    destruct (IH (if a <? x0 then a else x0)) as [Hle Hin].
    destruct (a <? x0) eqn:Hlt.
    + apply nlt_true in Hlt. split.
      * intros x Hx. apply elem_of_cons in Hx. destruct Hx as [->|Hx].
        -- pose proof (Hle a (list_elem_of_here _ _)). lra.
        -- apply Hle. exact Hx.
      * right. exact Hin.
    + apply nlt_false in Hlt. split.
      * intros x Hx. apply elem_of_cons in Hx. destruct Hx as [->|Hx].
        -- apply Hle. left.
        -- apply elem_of_cons in Hx. destruct Hx as [->|Hx].
           ++ pose proof (Hle x0 (list_elem_of_here _ _)). lra.
           ++ apply Hle. right. exact Hx.
      * apply elem_of_cons in Hin. destruct Hin as [->|Hin]; [left|].
        right. right. exact Hin.
Qed.

Lemma greatest_spec (l : list R) (x0 : R) :
  (forall x, x ∈ x0 :: l -> (x <= greatest x0 l)%R) /\ greatest x0 l ∈ x0 :: l.
Proof.
  revert x0. induction l as [|a l IH]; intros x0.
  - simpl. split; [|left].
    intros x Hx. apply list_elem_of_singleton in Hx. subst. lra.
  - change (greatest x0 (a :: l)) with (greatest (if x0 <? a then a else x0) l).
    destruct (IH (if x0 <? a then a else x0)) as [Hle Hin].
    destruct (x0 <? a) eqn:Hlt.
    + apply nlt_true in Hlt. split.
      * intros x Hx. apply elem_of_cons in Hx. destruct Hx as [->|Hx].
        -- pose proof (Hle a (list_elem_of_here _ _)). lra.
        -- apply Hle. exact Hx.
      * right. exact Hin.
    + apply nlt_false in Hlt. split.
      * intros x Hx. apply elem_of_cons in Hx. destruct Hx as [->|Hx].
        -- apply Hle. left.
        -- apply elem_of_cons in Hx. destruct Hx as [->|Hx].
           ++ pose proof (Hle x0 (list_elem_of_here _ _)). lra.
           ++ apply Hle. right. exact Hx.
      * apply elem_of_cons in Hin. destruct Hin as [->|Hin]; [left|].
        right. right. exact Hin.
Qed.

Lemma elem_of_coordinates (c : Vec R -> R) (l : list (Vec R)) (x : R) :
  x ∈ map c l -> exists p, p ∈ l /\ c p = x.
Proof.
  intros Hx. apply elem_of_map in Hx. destruct Hx as (p & Hp & ->). eauto.
Qed.

Lemma coordinate_elem_of (c : Vec R -> R) (l : list (Vec R)) (p : Vec R) :
  p ∈ l -> c p ∈ map c l.
Proof. intros Hp. apply elem_of_map. eauto. Qed.

Lemma sample_box_encloses (l : list (Vec R)) :
  l <> [] -> box_encloses (sample_getBoundsFromPoints l None) l.
Proof.
  destruct l as [|p rest]; [congruence|]. intros _.
  unfold sample_getBoundsFromPoints, box_of, box_encloses. simpl.
  destruct (least_spec (map vx rest) (vx p)) as [Hlx Hlx'].
  destruct (least_spec (map vy rest) (vy p)) as [Hly Hly'].
  destruct (greatest_spec (map vx rest) (vx p)) as [Hgx Hgx'].
  destruct (greatest_spec (map vy rest) (vy p)) as [Hgy Hgy'].
  change (vx p :: map vx rest) with (map vx (p :: rest)) in *.
  change (vy p :: map vy rest) with (map vy (p :: rest)) in *.
  split; [|repeat split].
  - intros q Hq.
    pose proof (Hlx _ (coordinate_elem_of vx _ _ Hq)).
    pose proof (Hly _ (coordinate_elem_of vy _ _ Hq)).
    pose proof (Hgx _ (coordinate_elem_of vx _ _ Hq)).
    pose proof (Hgy _ (coordinate_elem_of vy _ _ Hq)).
    split; lra.
  - apply elem_of_coordinates. exact Hlx'.
  - destruct (elem_of_coordinates vx _ _ Hgx') as (q & Hq & Hqx).
    exists q. split; [exact Hq|]. rewrite Hqx. lra.
  - apply elem_of_coordinates. exact Hly'.
  - destruct (elem_of_coordinates vy _ _ Hgy') as (q & Hq & Hqy).
    exists q. split; [exact Hq|]. rewrite Hqy. lra.
Qed.

(** *** hitTestBounds on a stroke away from the origin *)

(** C1 (the code departs from the claim): on an unrotated horizontal stroke
    anchored at [[100,100]], a brush across the middle of the stroke is
    reported as a miss, and a brush around the origin, where the stroke is
    not, as a hit; with the polyline taken in document space, as the claim
    says and as the rotated branch does, the answers are the opposite. *)
Theorem hitTestBounds_unrotated_ignores_anchor :
  (rotation (drawShape (V2 (lit 100) (lit 100)) 1%positive (lit 0 : float))
     === lit 0) = true /\
  option_map fst (hitTestBounds 1%positive strokeBrush (strokeHeap : Heap float))
  = Some false /\
  option_map fst
    (hitTestBounds_unrotated_spec 1%positive strokeBrush (strokeHeap : Heap float))
  = Some true /\
  option_map fst (hitTestBounds 1%positive originBrush (strokeHeap : Heap float))
  = Some true /\
  option_map fst
    (hitTestBounds_unrotated_spec 1%positive originBrush (strokeHeap : Heap float))
  = Some false.
Proof. repeat split; vm_compute; reflexivity. Qed.

(** *** Bounds of a shape whose points were replaced *)

(** C3 (counterexample): three unrotated shapes on which the two boxes
    differ. After [getBounds] and a resize of the same shape object the cache
    still holds the box of the old points: [getBounds] answers with the old
    extent and [getRotatedBounds] with the new extent, re-centred on the old
    box. With the cache current, in binary64: where the min x and the anchor
    are [-0], [getBounds] gives [-0] and [getRotatedBounds] gives [+0] (their
    reciprocals are the two infinities); and where the box is finite but its
    centre overflows, the centre minus itself is NaN, and so is the min x
    that [getRotatedBounds] returns. *)
Lemma getRotatedBounds_unrotated_differs :
  (rotation (drawShape (V2 (lit 100) (lit 100)) 1%positive (lit 0 : float))
     === lit 0) = true /\
  option_map fst (resize_then_bounds dragHeap)
  = Some (mkBounds (lit 100) (lit 100) (lit 30) (lit 40),
          mkBounds (lit 85) (lit 80) (lit 60) (lit 80)) /\
  (lit 30 === (lit 60 : float)) = false /\
  option_map (fun r => (lit 1 / minX (fst (fst r)), lit 1 / minX (snd (fst r))))
    (both_bounds negZeroHeap)
  = Some (PrimFloat.neg_infinity, PrimFloat.infinity) /\
  (farAway <? PrimFloat.infinity) = true /\
  option_map fst (both_bounds farHeap)
  = Some (mkBounds farAway (lit 0) farAway (lit 10),
          mkBounds PrimFloat.nan (lit 0) farAway (lit 10)).
Proof. repeat split; vm_compute; reflexivity. Qed.

(** *** The identity resize *)

(** C4 (counterexample): a transform to the shape's own bounds with both
    scale factors 1 turns the sample points [[0,0,0.5],[30,40,0.5]] into
    [[0,0],[30,40]]: the points are not what they were, and the test that
    selects the pressure mode of the outline changes its answer. In binary64
    the stroke [[9.1,9.1,0.5],[151.52,151.52,0.5]] anchored at [[-60,-60]]
    ends with the corner of its bounds below the corner of the target box,
    and on a horizontal stroke, whose box has height 0, every y becomes
    NaN. *)
Lemma transform_identity_changes_points :
  points_of (dragHeap : Heap float) 1%positive
  = Some [V3 (lit 0) (lit 0) (lit 0.5); V3 (lit 30) (lit 40) (lit 0.5)] /\
  match identity_drag dragHeap with
  | Some (_, h') => points_of h' 1%positive
  | None => None
  end = Some [V2 (lit 0) (lit 0); V2 (lit 30) (lit 40)] /\
  sentinel (V3 (lit 30) (lit 40) (lit 0.5 : float)) = true /\
  sentinel (V2 (lit 30) (lit 40 : float)) = false /\
  option_map
    (fun r => let '(original, after) := fst r in
              (minX after === minX original, minX after <? minX original,
               minY after === minY original, minY after <? minY original))
    (identity_drag_then_bounds ulpHeap)
  = Some (false, true, false, true) /\
  match identity_drag_flat strokeHeap with
  | Some (_, h') =>
      option_map (map (fun p => PrimFloat.is_nan (vy p))) (points_of h' 1%positive)
  | None => None
  end = Some [true; true].
Proof. repeat split; vm_compute; reflexivity. Qed.

(** With the sample bounds constructor, the box of a horizontal stroke has
    height 0, and the same transform divides by it: every y becomes NaN. *)
Example transform_flat_stroke_nan :
  match identity_drag_flat strokeHeap with
  | Some (_, h') =>
      option_map (map (fun p => PrimFloat.is_nan (vy p))) (points_of h' 1%positive)
  | None => None
  end = Some [true; true].
Proof. vm_compute. reflexivity. Qed.

(** *** The anchor moves by [[0.3, 0]] *)

(** C2 (counterexample): in binary64, on the stroke [[0.1,0,0.5],[1,1,0.5]]
    the anchor goes from [[0.2,0]] to [[0.5,0]], a delta of [[0.3,0]]; the
    box keeps its width and height, and its min x goes from [0.1 + 0.2] to
    [0.1 + 0.5], which is neither the old min x plus 0.3 nor 0.3 away from
    it. *)
Lemma getBounds_shift_differs_from_delta :
  vec_sub (V2 (lit 0.5) (lit 0)) (V2 (lit 0.2) (lit 0 : float))
  = V2 (lit 0.3) (lit 0) /\
  option_map fst (move_then_bounds tenthsHeap)
  = Some (mkBounds (lit 0.1 + lit 0.2) (lit 0) (lit 1 - lit 0.1) (lit 1),
          mkBounds (lit 0.1 + lit 0.5) (lit 0) (lit 1 - lit 0.1) (lit 1)) /\
  (((lit 0.1 + lit 0.2) + lit 0.3 : float) === lit 0.1 + lit 0.5) = false /\
  (((lit 0.1 + lit 0.5) - (lit 0.1 + lit 0.2) : float) === lit 0.3) = false.
Proof. repeat split; vm_compute; reflexivity. Qed.

(** *** The flipped resize *)

(** C5 (counterexample): in binary64, the stroke
    [[0,0,0.5],[1.1,5,0.5],[10,10,0.5]] flipped into the box
    [{0.3, 0, 10.1, 10}] with [scaleX = -1]: the normalized x-offset of the
    middle point inside the target box is below 1 minus its old normalized
    x-offset, and so is the offset the code computes with. On the horizontal
    stroke, whose box has height 0, a flip with [scaleY = -1] makes every y
    NaN: there is no offset to compare. *)
Lemma transform_mirror_offsets_differ :
  option_map
    (fun r =>
       match fst r with
       | (original, anchor, [_; p'; _]) =>
           let new_offset :=
             ((vx p' + vx anchor) - minX mirrorTarget) / width mirrorTarget in
           let old_offset := (lit 1.1 - minX original) / width original in
           [new_offset === lit 1 - old_offset;
            new_offset <? lit 1 - old_offset;
            vx p' / width mirrorTarget === lit 1 - lit 1.1 / width original]
       | _ => []
       end)
    (flip_drag mirrorHeap)
  = Some [false; true; false] /\
  match flip_flat strokeHeap with
  | Some (_, h') =>
      option_map (map (fun p => PrimFloat.is_nan (vy p))) (points_of h' 1%positive)
  | None => None
  end = Some [true; true].
Proof. split; vm_compute; reflexivity. Qed.

(** *** Instances of the theorems *)

Lemma lit_nonzero (n : positive) : lit (num := R) (Z.pos n # 1) <> 0%R.
Proof.
  unfold lit; simpl. unfold Q2R; simpl. rewrite Rinv_1, Rmult_1_r.
  apply not_0_IZR. discriminate.
Qed.

Lemma lit_positive (n : positive) : (0 < lit (num := R) (Z.pos n # 1))%R.
Proof.
  unfold lit; simpl. unfold Q2R; simpl. rewrite Rinv_1, Rmult_1_r.
  apply IZR_lt. reflexivity.
Qed.

(** The sample constructor on the diagonal stroke, in real arithmetic. *)
Lemma dragBox_computed :
  sample_getBoundsFromPoints (num := R)
    [V3 (lit 0) (lit 0) (lit 0.5); V3 (lit 30) (lit 40) (lit 0.5)] None
  = mkBounds (lit 0) (lit 0) (lit 30) (lit 40).
Proof.
  pose proof lit_0 as H0.
  pose proof (lit_positive 30) as H30. pose proof (lit_positive 40) as H40.
  unfold sample_getBoundsFromPoints, box_of, least, greatest.
  cbn [map vx vy fold_left].
  assert (Hx : (lit (num := R) 30 <? lit 0) = false) by (apply nlt_false; lra).
  assert (Hy : (lit (num := R) 40 <? lit 0) = false) by (apply nlt_false; lra).
  assert (Hx' : (lit (num := R) 0 <? lit 30) = true) by (apply nlt_true; lra).
  assert (Hy' : (lit (num := R) 0 <? lit 40) = true) by (apply nlt_true; lra).
  rewrite Hx, Hy, Hx', Hy'.
  apply Bounds_eq; cbn [minX minY width height nsub RealNumber]; lra.
Qed.

(** C2 (amended) in binary64, at the stroke whose anchor goes from
    [[0.2,0]] to [[0.5,0]], and in real arithmetic, at the horizontal stroke,
    where the min corner shifts by the anchor delta. *)
Lemma getBounds_caches_untranslated_box_witness :
  (exists local h1 h2,
     getBounds 1%positive tenthsHeap
     = Some (translateBounds local (V2 (lit 0.2) (lit 0)), h1) /\
     boundsCache h1 !! 1%positive = Some local /\
     assign_point 1%positive (V2 (lit 0.5) (lit 0)) h1 = Some (tt, h2) /\
     getBounds 1%positive h2
     = Some (translateBounds local (V2 (lit 0.5) (lit 0)), h2) /\
     minX (translateBounds local (V2 (lit 0.5) (lit 0))) = minX local + lit 0.5) /\
  (exists local h1,
     getBounds 1%positive (strokeHeap : Heap R)
     = Some (translateBounds local (V2 (lit 100) (lit 100)), h1) /\
     boundsCache h1 !! 1%positive = Some local /\
     forall delta,
       minX (translateBounds local (vec_add (V2 (lit 100) (lit 100)) delta))
       = (minX (translateBounds local (V2 (lit 100) (lit 100))) + vx delta)%R).
Proof.
  split.
  - destruct (getBounds_caches_untranslated_box tenthsHeap 1%positive
                (drawShape (V2 (lit 0.2) (lit 0)) 1%positive (lit 0))
                [V3 (lit 0.1) (lit 0) (lit 0.5); V3 (lit 1) (lit 1) (lit 0.5)]
                eq_refl eq_refl)
      as (local & h1 & Hg & Hc & _ & _ & _ & Hmove & _).
    destruct (Hmove (V2 (lit 0.5) (lit 0)))
      as (h2 & Ha & Hg2 & _ & _ & _ & Hx & _).
    exists local, h1, h2. repeat split; assumption.
  - destruct (getBounds_caches_untranslated_box (strokeHeap : Heap R) 1%positive
                (drawShape (V2 (lit 100) (lit 100)) 1%positive (lit 0))
                [V3 (lit 0) (lit 0) (lit 0.5); V3 (lit 50) (lit 0) (lit 0.5)]
                eq_refl eq_refl)
      as (local & h1 & Hg & Hc & _ & _ & _ & _ & Hassoc & _).
    exists local, h1. split; [exact Hg|]. split; [exact Hc|].
    intros delta. apply Hassoc. intros a b c. simpl. ring.
Defined.

(** C3 (amended) at the snapshot of the diagonal stroke, whose box is in the
    cache: in binary64 and in real arithmetic [getRotatedBounds] returns the
    box of [getBounds]. *)
Lemma getRotatedBounds_unrotated_witness :
  (boundsCache (dragHeapCached : Heap float) !! 2%positive
   = Some (getBoundsFromPoints
             [V3 (lit 0) (lit 0) (lit 0.5); V3 (lit 30) (lit 40) (lit 0.5)]
             None) /\
   exists b h1,
     getBounds 2%positive (dragHeapCached : Heap float) = Some (b, h1) /\
     getRotatedBounds 2%positive (dragHeapCached : Heap float) = Some (b, h1) /\
     b = mkBounds (lit 100) (lit 100) (lit 30) (lit 40)) /\
  (exists b h1,
     getBounds 2%positive (dragHeapCached : Heap R) = Some (b, h1) /\
     getRotatedBounds 2%positive (dragHeapCached : Heap R) = Some (b, h1)).
Proof.
  split; [split; [vm_compute; reflexivity|]|].
  - destruct (proj1 getRotatedBounds_unrotated float FloatNumber sampleUtils
                (dragHeapCached : Heap float) 2%positive
                (drawShape (V2 (lit 100) (lit 100)) 1%positive (lit 0))
                [V3 (lit 0) (lit 0) (lit 0.5); V3 (lit 30) (lit 40) (lit 0.5)]
                eq_refl eq_refl)
      as (b & h1 & Hg & Hb & _ & Hsame).
    + vm_compute. reflexivity.
    + intros l r Hr. apply sample_default_rotation. exact Hr.
    + intros c Hc. vm_compute in Hc. injection Hc as <-. vm_compute. reflexivity.
    + exists b, h1. split; [exact Hg|]. split.
      * apply Hsame; rewrite Hb; vm_compute; reflexivity.
      * rewrite Hb. vm_compute. reflexivity.
  - destruct (proj2 getRotatedBounds_unrotated sampleUtils
                (dragHeapCached : Heap R) 2%positive
                (drawShape (V2 (lit 100) (lit 100)) 1%positive (lit 0))
                [V3 (lit 0) (lit 0) (lit 0.5); V3 (lit 30) (lit 40) (lit 0.5)]
                eq_refl eq_refl)
      as (b & h1 & Hg & Hr & _).
    + apply nseq_true. reflexivity.
    + intros l r Hr. apply sample_default_rotation. exact Hr.
    + intros c Hc.
      change (Some (mkBounds (lit 0) (lit 0) (lit 30) (lit 40)) = Some c) in Hc.
      injection Hc as <-. symmetry. apply dragBox_computed.
    + exists b, h1. split; assumption.
Defined.

(** C4 (amended) at the diagonal stroke, whose box is 30 by 40, in binary64
    and in real arithmetic. *)
Lemma transform_identity_witness :
  (exists h' sh',
     transform 1%positive
       (translateBounds (mkBounds (lit 0) (lit 0) (lit 30) (lit 40))
          (V2 (lit 100) (lit 100)))
       2%positive (lit 1) (lit 1) (dragHeapCached : Heap float)
     = Some (tt, h') /\
     shapes h' !! 1%positive = Some sh' /\
     arrays h' !! points sh'
     = Some [V2 (lit 30 * (lit 0 / lit 30)) (lit 40 * (lit 0 / lit 40));
             V2 (lit 30 * (lit 30 / lit 30)) (lit 40 * (lit 40 / lit 40))]) /\
  (exists h' sh',
     transform 1%positive
       (translateBounds (mkBounds (lit 0) (lit 0) (lit 30) (lit 40))
          (V2 (lit 100) (lit 100)))
       2%positive (lit 1) (lit 1) (dragHeapCached : Heap R) = Some (tt, h') /\
     shapes h' !! 1%positive = Some sh' /\
     arrays h' !! points sh'
     = Some [V2 (lit 0) (lit 0); V2 (lit 30) (lit 40)]).
Proof.
  split.
  - destruct (proj1 transform_identity float FloatNumber sampleUtils
                (dragHeapCached : Heap float) 1%positive 2%positive
                (drawShape (V2 (lit 100) (lit 100)) 1%positive (lit 0))
                (drawShape (V2 (lit 100) (lit 100)) 1%positive (lit 0))
                [V3 (lit 0) (lit 0) (lit 0.5); V3 (lit 30) (lit 40) (lit 0.5)]
                (mkBounds (lit 0) (lit 0) (lit 30) (lit 40))
                eq_refl eq_refl eq_refl eq_refl)
      as (h' & sh' & Ht & Hs & Ha & _).
    + vm_compute. reflexivity.
    + exists h', sh'. split; [exact Ht|]. split; [exact Hs|exact Ha].
  - destruct (proj2 transform_identity sampleUtils
                (dragHeapCached : Heap R) 1%positive 2%positive
                (drawShape (V2 (lit 100) (lit 100)) 1%positive (lit 0))
                (drawShape (V2 (lit 100) (lit 100)) 1%positive (lit 0))
                [V3 (lit 0) (lit 0) (lit 0.5); V3 (lit 30) (lit 40) (lit 0.5)]
                (mkBounds (lit 0) (lit 0) (lit 30) (lit 40))
                eq_refl eq_refl eq_refl eq_refl
                (lit_nonzero 30) (lit_nonzero 40))
      as (h' & sh' & Ht & Hs & Ha & _).
    exists h', sh'. split; [exact Ht|]. split; [exact Hs|exact Ha].
Defined.

Lemma dragBox_encloses :
  box_encloses (mkBounds (lit 0) (lit 0) (lit 30) (lit 40))
    [V3 (lit 0) (lit 0) (lit 0.5); V3 (lit 30) (lit 40) (lit 0.5)].
Proof.
  pose proof lit_0 as H0.
  pose proof (lit_positive 30). pose proof (lit_positive 40).
  unfold box_encloses. cbn [minX minY width height].
  split; [|repeat split].
  - intros p Hp.
    apply elem_of_cons in Hp. destruct Hp as [->|Hp].
    + cbn [vx vy]. lra.
    + apply list_elem_of_singleton in Hp. subst p. cbn [vx vy]. lra.
  - eexists. split; [left|]. reflexivity.
  - eexists. split; [right; left|]. cbn [vx]. lra.
  - eexists. split; [left|]. reflexivity.
  - eexists. split; [right; left|]. cbn [vy]. lra.
Qed.

(** C5 (amended) at the diagonal stroke, flipped horizontally into a 60 by
    80 box, in binary64 and in real arithmetic. *)
Lemma transform_mirrors_witness :
  (exists h' sh' newpts,
     transform 1%positive (mkBounds (lit 100) (lit 100) (lit 60) (lit 80))
       2%positive (lit (-1)) (lit 1) (dragHeapCached : Heap float)
     = Some (tt, h') /\
     shapes h' !! 1%positive = Some sh' /\
     arrays h' !! points sh' = Some newpts /\
     forall p', newpts !! 1%nat = Some p' ->
       vx p' = lit 60 * (lit 1 - lit 30 / lit 30) /\
       vy p' = lit 80 * (lit 40 / lit 40)) /\
  (exists h',
     transform 1%positive (mkBounds (lit 100) (lit 100) (lit 60) (lit 80))
       2%positive (lit (-1)) (lit 1) (dragHeapCached : Heap R) = Some (tt, h')).
Proof.
  split.
  - destruct (proj1 transform_mirrors float FloatNumber sampleUtils
                (dragHeapCached : Heap float) 1%positive 2%positive
                (drawShape (V2 (lit 100) (lit 100)) 1%positive (lit 0))
                (drawShape (V2 (lit 100) (lit 100)) 1%positive (lit 0))
                [V3 (lit 0) (lit 0) (lit 0.5); V3 (lit 30) (lit 40) (lit 0.5)]
                (mkBounds (lit 0) (lit 0) (lit 30) (lit 40))
                (mkBounds (lit 100) (lit 100) (lit 60) (lit 80))
                (lit (-1)) (lit 1)
                eq_refl eq_refl eq_refl eq_refl)
      as (h' & sh' & newpts & Ht & Hs & Ha & _ & _ & Hall).
    exists h', sh', newpts.
    split; [exact Ht|]. split; [exact Hs|]. split; [exact Ha|].
    intros p' Hp'.
    destruct (Hall 1%nat (V3 (lit 30) (lit 40) (lit 0.5)) p' eq_refl Hp')
      as (Hx & Hy & _).
    split; [rewrite Hx|rewrite Hy]; vm_compute; reflexivity.
  - destruct (proj2 transform_mirrors sampleUtils
                (dragHeapCached : Heap R) 1%positive 2%positive
                (drawShape (V2 (lit 100) (lit 100)) 1%positive (lit 0))
                (drawShape (V2 (lit 100) (lit 100)) 1%positive (lit 0))
                [V3 (lit 0) (lit 0) (lit 0.5); V3 (lit 30) (lit 40) (lit 0.5)]
                (mkBounds (lit 0) (lit 0) (lit 30) (lit 40))
                (mkBounds (lit 100) (lit 100) (lit 60) (lit 80))
                (lit (-1)) (lit 1)
                eq_refl eq_refl eq_refl eq_refl
                sample_box_encloses dragBox_encloses
                (lit_positive 30) (lit_positive 40)
                (lit_positive 60) (lit_positive 80))
      as (h' & sh' & newpts & Ht & _).
    exists h'. exact Ht.
Defined.

(** C6 at the horizontal stroke, asked to be filled and dashed. *)
Lemma applyStyles_forces_style_and_new_points_witness :
  exists h' sh',
    applyStyles 1%positive filledDashed (strokeHeap : Heap float) = Some (tt, h') /\
    shapes h' !! 1%positive = Some sh' /\
    isFilled (style sh') = false /\
    dash (style sh') = Solid /\
    points sh' <> 1%positive.
Proof.
  destruct (applyStyles_forces_style_and_new_points (strokeHeap : Heap float)
              1%positive
              (drawShape (V2 (lit 100) (lit 100)) 1%positive (lit 0))
              [V3 (lit 0) (lit 0) (lit 0.5); V3 (lit 50) (lit 0) (lit 0.5)]
              filledDashed eq_refl eq_refl)
    as (h' & sh' & Ht & Hs & Hf & Hd & _ & _ & Hp & _).
  exists h', sh'. repeat split; assumption.
Defined.

(** C7 at the horizontal stroke, whose second point carries the sentinel. *)
Lemma renderPath_pressure_mode_witness :
  exists (p1 : Vec float) (options : StrokeOptions float),
    [V3 (lit 0) (lit 0) (lit 0.5); V3 (lit 50) (lit 0) (lit 0.5 : float)] !! 1%nat
    = Some p1 /\
    o_simulatePressure options = Some (sentinel p1).
Proof.
  destruct (renderPath_pressure_mode (strokeHeap : Heap float) 1%positive
              (drawShape (V2 (lit 100) (lit 100)) 1%positive (lit 0))
              [V3 (lit 0) (lit 0) (lit 0.5); V3 (lit 50) (lit 0) (lit 0.5)]
              blackMedium eq_refl eq_refl (le_n 2))
    as (p1 & options & Hp & _ & _ & Ho & _).
  exists p1, options. split; assumption.
Defined.

(** C8 at the dot: a circle of radius [4 * 0.618]. *)
Lemma render_dot_for_fewer_than_two_points_witness :
  exists h',
    render 1%positive (dotHeap : Heap float)
    = Some (circle "shape0" (lit 4 * lit 0.618) "Black", h').
Proof.
  destruct (render_dot_for_fewer_than_two_points (dotHeap : Heap float)
              1%positive
              (drawShape (V2 (lit 100) (lit 100)) 1%positive (lit 0))
              [V3 (lit 0) (lit 0) (lit 0.5)]
              eq_refl eq_refl (le_n 2))
    as ((h' & Hr & _) & _).
  exists h'. exact Hr.
Defined.

(** C9 at the dot, probed at its own anchor. *)
Lemma hitTest_fewer_than_two_points_witness :
  hitTest 1%positive (V2 (lit 100) (lit 100)) (dotHeap : Heap float)
  = Some (false, dotHeap).
Proof.
  apply (hitTest_fewer_than_two_points (dotHeap : Heap float) 1%positive
           (drawShape (V2 (lit 100) (lit 100)) 1%positive (lit 0))
           [V3 (lit 0) (lit 0) (lit 0.5)] (V2 (lit 100) (lit 100))
           eq_refl eq_refl (le_n 2)).
Defined.

(** C10 at the diagonal stroke, resized to twice its size. *)
Lemma transform_discards_pressure_witness :
  exists h' sh' newpts,
    transform 1%positive (mkBounds (lit 100) (lit 100) (lit 60) (lit 80))
      2%positive (lit 2) (lit 2) (dragHeapCached : Heap float) = Some (tt, h') /\
    shapes h' !! 1%positive = Some sh' /\
    arrays h' !! points sh' = Some newpts /\
    Forall (fun p => length (components p) = 2%nat /\ third p = None
                     /\ sentinel p = false) newpts.
Proof.
  destruct (transform_discards_pressure (dragHeapCached : Heap float)
              1%positive 2%positive
              (drawShape (V2 (lit 100) (lit 100)) 1%positive (lit 0))
              (drawShape (V2 (lit 100) (lit 100)) 1%positive (lit 0))
              [V3 (lit 0) (lit 0) (lit 0.5); V3 (lit 30) (lit 40) (lit 0.5)]
              (mkBounds (lit 0) (lit 0) (lit 30) (lit 40))
              (mkBounds (lit 100) (lit 100) (lit 60) (lit 80)) (lit 2) (lit 2)
              eq_refl eq_refl eq_refl eq_refl)
    as (h' & sh' & newpts & Ht & Hs & Ha & _ & Hall).
  exists h', sh', newpts. repeat split; assumption.
Defined.

End Concrete.

(** * Further properties of the module *)

Section Growth.
Context {num : Type} {N : Number num} {U : Utils num}.
Local Open Scope js_scope.

Lemma grows_refl (h : Heap num) : grows h h.
Proof. repeat split; reflexivity. Qed.

Lemma grows_trans (h1 h2 h3 : Heap num) :
  grows h1 h2 -> grows h2 h3 -> grows h1 h3.
Proof.
  intros (A1 & B1 & C1 & D1) (A2 & B2 & C2 & D2).
  repeat split; etrans; eassumption.
Qed.

Lemma fresh_array_None (h : Heap num) :
  arrays h !! fresh (dom (arrays h)) = None.
Proof. apply not_elem_of_dom, is_fresh. Qed.

Lemma fresh_shape_None (h : Heap num) :
  shapes h !! fresh (dom (shapes h)) = None.
Proof. apply not_elem_of_dom, is_fresh. Qed.

Lemma getBounds_inv (h h' : Heap num) (shape : loc) (b : Bounds num) :
  getBounds shape h = Some (b, h') ->
  exists sh, shapes h !! shape = Some sh /\
    (h' = h \/
     (boundsCache h !! shape = None /\
      exists bx, h' = boundsCache_set shape bx (log_computed shape h))).
Proof.
  unfold getBounds, has. step_m.
  destruct (shapes h !! shape) as [sh|]; simpl; [|discriminate].
  intros Hrest. exists sh. split; [reflexivity|]. revert Hrest.
  destruct (boundsCache h !! shape) as [c|] eqn:Hc; simpl.
  - rewrite Hc. simpl. intros [= _ <-]. left. reflexivity.
  - destruct (arrays h !! points sh) as [pts|]; simpl; [|discriminate].
    rewrite lookup_insert_eq. simpl. intros [= _ <-].
    right. split; [reflexivity|]. eexists. reflexivity.
Qed.

Lemma getBounds_grows_live (h h' : Heap num) (shape : loc) (b : Bounds num) :
  getBounds shape h = Some (b, h') ->
  grows h h' /\ (keys_live h -> keys_live h') /\
  shapes h' = shapes h /\ arrays h' = arrays h.
Proof.
  intros Hg. apply getBounds_inv in Hg.
  destruct Hg as (sh & Hs & [->|(Hc & bx & ->)]).
  - split; [apply grows_refl|]. split; [exact (fun H => H)|]. split; reflexivity.
  - split; [|split; [|split; reflexivity]].
    + repeat split; simpl; try reflexivity. apply insert_subseteq, Hc.
    + intros (HB & HR & HP). repeat split; simpl; try assumption.
      rewrite dom_insert_L. apply elem_of_dom_2 in Hs. set_solver.
Qed.

Lemma getRotatedBounds_grows_live (h h' : Heap num) (shape : loc)
    (b : Bounds num) :
  getRotatedBounds shape h = Some (b, h') ->
  grows h h' /\ (keys_live h -> keys_live h') /\
  shapes h' = shapes h /\ arrays h' = arrays h.
Proof.
  unfold getRotatedBounds. step_m.
  destruct (shapes h !! shape) as [sh|]; simpl; [|discriminate].
  destruct (arrays h !! points sh) as [pts|]; simpl; [|discriminate].
  destruct (getBounds shape h) as [[b0 h0]|] eqn:Hg; [|discriminate].
  intros [= _ <-]. eapply getBounds_grows_live. exact Hg.
Qed.

Lemma insert_fresh_array_grows (h : Heap num) (l : list (Vec num)) :
  arrays h ⊆ <[fresh (dom (arrays h)) := l]> (arrays h).
Proof. apply insert_subseteq, fresh_array_None. Qed.

Lemma exec_grows_live (o : Op num) (h h' : Heap num) :
  exec o h = Some (tt, h') ->
  grows h h' /\ (keys_live h -> keys_live h').
Proof.
  destruct o as [s|s|s|s p|s b|s b i sx sy|s st|s|s p]; simpl.
  - step_m. destruct (getBounds s h) as [[b0 h0]|] eqn:Hg; [|discriminate].
    intros [= <-]. destruct (getBounds_grows_live _ _ _ _ Hg) as (G & L & _).
    split; assumption.
  - step_m. destruct (getRotatedBounds s h) as [[b0 h0]|] eqn:Hg; [|discriminate].
    intros [= <-]. destruct (getRotatedBounds_grows_live _ _ _ _ Hg) as (G & L & _).
    split; assumption.
  - unfold getCenter. step_m.
    destruct (getRotatedBounds s h) as [[b0 h0]|] eqn:Hg; [|discriminate].
    intros [= <-]. destruct (getRotatedBounds_grows_live _ _ _ _ Hg) as (G & L & _).
    split; assumption.
  - unfold hitTest. step_m.
    destruct (shapes h !! s) as [sh|]; simpl; [|discriminate].
    destruct (arrays h !! points sh) as [pts|]; simpl; [|discriminate].
    intros [= <-]. split; [apply grows_refl|exact (fun H => H)].
  - unfold hitTestBounds. step_m.
    destruct (shapes h !! s) as [sh|] eqn:Hs; simpl; [|discriminate].
    destruct (rotation sh === lit 0).
    + destruct (getBounds s h) as [[b0 h0]|] eqn:Hg; [|discriminate].
      destruct (arrays h !! points sh) as [pts|]; simpl; [|discriminate].
      intros [= <-]. destruct (getBounds_grows_live _ _ _ _ Hg) as (G & L & _).
      split; assumption.
    + destruct (getRotatedBounds s h) as [[b0 h0]|] eqn:Hg; [|discriminate].
      destruct (getRotatedBounds_grows_live _ _ _ _ Hg) as (G & L & Hsh & Har).
      unfold has.
      destruct (rotatedCache h0 !! s) as [rc|] eqn:Hrc; simpl.
      * rewrite Hrc. simpl. intros [= <-]. split; assumption.
      * destruct (arrays h0 !! points sh) as [pts|]; simpl; [|discriminate].
        rewrite lookup_insert_eq. simpl. intros [= <-]. split.
        -- eapply grows_trans; [exact G|].
           repeat split; simpl; try reflexivity. apply insert_subseteq, Hrc.
        -- intros Hl. destruct (L Hl) as (HB & HR & HP).
           repeat split; simpl; try assumption.
           rewrite dom_insert_L. rewrite Hsh in *.
           apply elem_of_dom_2 in Hs. set_solver.
  - unfold transform. step_m.
    destruct (shapes h !! i) as [ish|]; simpl; [|discriminate].
    destruct (arrays h !! points ish) as [ipts|]; simpl; [|discriminate].
    destruct (mapM _ ipts) as [newpts|]; simpl; [|discriminate].
    destruct (shapes h !! s) as [sh|]; simpl; [|discriminate].
    rewrite lookup_insert_eq. simpl. intros [= <-]. split.
    + repeat split; simpl; try reflexivity. apply insert_fresh_array_grows.
    + intros (HB & HR & HP). repeat split; simpl;
        rewrite ?dom_insert_L; set_solver.
  - unfold applyStyles. step_m.
    destruct (shapes h !! s) as [sh|]; simpl; [|discriminate].
    rewrite lookup_insert_eq. simpl.
    destruct (arrays h !! points sh) as [pts|]; simpl; [|discriminate].
    rewrite lookup_insert_eq. simpl. intros [= <-]. split.
    + repeat split; simpl; try reflexivity. apply insert_fresh_array_grows.
    + intros (HB & HR & HP). repeat split; simpl;
        rewrite ?dom_insert_L; set_solver.
  - unfold render, renderPath, has. step_m.
    destruct (shapes h !! s) as [sh|] eqn:Hs; simpl; [|discriminate].
    destruct (pathCache h !! points sh) as [d|] eqn:Hc; simpl.
    + destruct (arrays h !! points sh) as [pts|]; simpl; [|discriminate].
      destruct (length pts <? 2)%nat; intros [= <-];
        (split; [apply grows_refl|exact (fun H => H)]).
    + rewrite Hs. simpl.
      destruct (arrays h !! points sh) as [pts|] eqn:Ha; simpl; [|discriminate].
      assert (Hfin : forall d,
                grows h (pathCache_set (points sh) d h) /\
                (keys_live h -> keys_live (pathCache_set (points sh) d h))).
      { intros d. split.
        - repeat split; simpl; try reflexivity. apply insert_subseteq, Hc.
        - intros (HB & HR & HP). repeat split; simpl; try assumption.
          rewrite dom_insert_L. apply elem_of_dom_2 in Ha. set_solver. }
      destruct (length pts <? 2)%nat eqn:Hl; simpl.
      * rewrite Ha. simpl. rewrite Hl. intros [= <-]. apply Hfin.
      * destruct (pts !! 1%nat) as [p1|]; simpl; [|discriminate].
        rewrite Ha. simpl. rewrite Hl. intros [= <-]. apply Hfin.
  - unfold assign_point. step_m.
    destruct (shapes h !! s) as [sh|]; simpl; [|discriminate].
    intros [= <-]. split.
    + repeat split; reflexivity.
    + intros (HB & HR & HP). repeat split; simpl;
        rewrite ?dom_insert_L; set_solver.
Qed.

Lemma run_grows_live (ops : list (Op num)) (h h' : Heap num) :
  run ops h = Some (tt, h') ->
  grows h h' /\ (keys_live h -> keys_live h').
Proof.
  revert h. induction ops as [|o ops IH]; intros h; simpl.
  - step_m. intros [= <-]. split; [apply grows_refl|exact (fun H => H)].
  - unfold bind at 1.
    destruct (exec o h) as [[[] h0]|] eqn:He; [|discriminate].
    intros Hr. destruct (exec_grows_live _ _ _ He) as [G1 L1].
    destruct (IH _ Hr) as [G2 L2].
    split; [eapply grows_trans; eassumption|auto].
Qed.

(** X1: the module never writes into an existing points array and never
    overwrites or drops a cache entry. After any run of its operations every
    array that existed holds the values it held, a box, a list of rotated
    points or a path that was cached is still cached unchanged, and the keys
    of the caches are still objects of the heap. *)
Theorem run_never_overwrites
    (ops : list (Op num)) (h h' : Heap num) :
  run ops h = Some (tt, h') ->
  (forall a l, arrays h !! a = Some l -> arrays h' !! a = Some l) /\
  (forall s b, boundsCache h !! s = Some b -> boundsCache h' !! s = Some b) /\
  (forall s l, rotatedCache h !! s = Some l -> rotatedCache h' !! s = Some l) /\
  (forall a d, pathCache h !! a = Some d -> pathCache h' !! a = Some d) /\
  (keys_live h -> keys_live h').
Proof.
  intros Hr. destruct (run_grows_live _ _ _ Hr) as [(GA & GB & GR & GP) L].
  split; [|split; [|split; [|split; [|exact L]]]];
    intros k v Hk; eapply lookup_weaken; eassumption.
Qed.

End Growth.

Section Composition.
Context {num : Type} {N : Number num} {U : Utils num}.
Local Open Scope js_scope.

(** *** hitTest *)

Lemma existsb_imap_pair {A} (f : nat * A -> bool) (l : list A) :
  existsb f (imap pair l) = true <->
  exists i x, l !! i = Some x /\ f (i, x) = true.
Proof.
  rewrite existsb_exists. split.
  - intros ([i x] & Hin & Hf). apply list_elem_of_In in Hin.
    apply elem_of_lookup_imap in Hin. destruct Hin as (j & y & [= -> ->] & Hl).
    eauto.
  - intros (i & x & Hl & Hf). exists (i, x). split; [|exact Hf].
    apply list_elem_of_In. apply (elem_of_lookup_imap_2 pair l x i Hl).
Qed.

(** X2: [hitTest] answers true exactly when some pair of consecutive sample
    points spans a segment whose distance to the query point, taken in the
    shape's local frame, is below the resolved stroke width; it changes
    nothing. *)
Theorem hitTest_true_iff_near_a_segment
    (h : Heap num) (shape : loc) (sh : DrawShape num) (pts : list (Vec num))
    (p : Vec num) :
  shapes h !! shape = Some sh ->
  arrays h !! points sh = Some pts ->
  exists hit,
    hitTest shape p h = Some (hit, h) /\
    (hit = true <->
     exists i prev curr,
       pts !! i = Some prev /\ pts !! S i = Some curr /\
       (distanceToLineSegment prev curr (vec_sub p (point sh))
        <? strokeWidth (getShapeStyle (style sh))) = true).
Proof.
  intros Hs Ha. eexists. split.
  { unfold hitTest. step_m. rewrite Hs. simpl. rewrite Ha. reflexivity. }
  rewrite existsb_imap_pair. split.
  - intros (i & curr & Hl & Hf). unfold hitTest_callback in Hf.
    apply andb_prop in Hf. destruct Hf as [Hi Hd].
    apply Nat.ltb_lt in Hi. destruct i as [|i]; [lia|].
    replace (S i - 1)%nat with i in Hd by lia.
    destruct (pts !! i) as [prev|] eqn:Hp; [|discriminate].
    exists i, prev, curr. auto.
  - intros (i & prev & curr & Hp & Hc & Hd).
    exists (S i), curr. split; [exact Hc|].
    unfold hitTest_callback. replace (S i - 1)%nat with i by lia.
    rewrite Hp, Hd. reflexivity.
Qed.

(** *** transform without a cached box *)

(** The reading of [transform] that keeps the heap at a throw agrees with
    [transform] on every input: it returns when [transform] returns, with the
    same heap, and throws when [transform] throws. *)
Lemma transform_traced_agrees
    (h : Heap num) (shape initialShape : loc) (bounds : Bounds num)
    (scaleX scaleY : num) :
  outcome (transform_traced shape bounds initialShape scaleX scaleY h)
  = transform shape bounds initialShape scaleX scaleY h.
Proof.
  unfold transform_traced, transform, outcome, new_array_t.
  unfold bind_t, ret_t, lift_t, get_heap_t, put_heap_t. step_m.
  destruct (shapes h !! initialShape) as [ish|]; simpl; [|reflexivity].
  destruct (arrays h !! points ish) as [ipts|]; simpl; [|reflexivity].
  destruct (mapM _ ipts) as [newpts|]; simpl; [|reflexivity].
  destruct (shapes h !! shape) as [sh|]; simpl; [|reflexivity].
  rewrite lookup_insert_eq. reflexivity.
Qed.

(** X3: when the box of the initial shape is not in the cache, [transform]
    throws as soon as there is a sample point to remap, and the heap at the
    throw is the heap of the call: nothing has been assigned; with no sample
    points it returns and leaves the shape with an empty points array. *)
Theorem transform_without_cached_box
    (h : Heap num) (shape initialShape : loc) (sh ish : DrawShape num)
    (ipts : list (Vec num)) (bounds : Bounds num) (scaleX scaleY : num) :
  shapes h !! shape = Some sh ->
  shapes h !! initialShape = Some ish ->
  arrays h !! points ish = Some ipts ->
  boundsCache h !! initialShape = None ->
  (ipts <> [] ->
   transform shape bounds initialShape scaleX scaleY h = None /\
   transform_traced shape bounds initialShape scaleX scaleY h = (h, None)) /\
  (ipts = [] ->
   exists h',
     transform shape bounds initialShape scaleX scaleY h = Some (tt, h') /\
     transform_traced shape bounds initialShape scaleX scaleY h
     = (h', Some tt) /\
     points_of h' shape = Some []).
Proof.
  intros Hs Hi Ha Hc. split.
  - intros Hne.
    assert (Ht : transform_traced shape bounds initialShape scaleX scaleY h
                 = (h, None)).
    { unfold transform_traced, bind_t, lift_t, get_heap_t. rewrite Hc, Hi, Ha.
      destruct ipts as [|p l]; [congruence|]. reflexivity. }
    split; [|exact Ht].
    rewrite <- transform_traced_agrees, Ht. reflexivity.
  - intros ->.
    assert (Ht : exists h',
               transform_traced shape bounds initialShape scaleX scaleY h
               = (h', Some tt) /\ points_of h' shape = Some []).
    { unfold transform_traced, new_array_t.
      unfold bind_t, ret_t, lift_t, get_heap_t, put_heap_t.
      rewrite Hc, Hi, Ha. simpl. rewrite Hs. simpl. rewrite lookup_insert_eq.
      eexists. split; [reflexivity|].
      unfold points_of. simpl. rewrite lookup_insert_eq. simpl.
      apply lookup_insert_eq. }
    destruct Ht as (h' & Ht & Hp). exists h'.
    split; [|split; [exact Ht|exact Hp]].
    rewrite <- transform_traced_agrees, Ht. reflexivity.
Qed.

(** *** transform from the same snapshot, again *)

(** X4: [transform] reads only the snapshot and writes only the live shape:
    it leaves the snapshot, its points array and the three caches as they
    were. So a second transform of the live shape from the same snapshot
    gives the points and the anchor that this transform alone gives, whatever
    transform came before it. *)
Theorem transform_again_from_snapshot
    (h : Heap num) (shape initialShape : loc) (sh ish : DrawShape num)
    (ipts : list (Vec num)) (isb b1 b2 : Bounds num) (sx1 sy1 sx2 sy2 : num) :
  shapes h !! shape = Some sh ->
  shapes h !! initialShape = Some ish ->
  arrays h !! points ish = Some ipts ->
  boundsCache h !! initialShape = Some isb ->
  shape <> initialShape ->
  exists h1 h2 h2',
    transform shape b1 initialShape sx1 sy1 h = Some (tt, h1) /\
    shapes h1 !! initialShape = Some ish /\
    points_of h1 initialShape = Some ipts /\
    boundsCache h1 = boundsCache h /\
    rotatedCache h1 = rotatedCache h /\
    pathCache h1 = pathCache h /\
    transform shape b2 initialShape sx2 sy2 h1 = Some (tt, h2) /\
    transform shape b2 initialShape sx2 sy2 h = Some (tt, h2') /\
    points_of h2 shape = points_of h2' shape /\
    option_map point (shapes h2 !! shape)
    = option_map point (shapes h2' !! shape).
Proof.
  intros Hs Hi Ha Hc Hne.
  pose proof (transform_result h shape initialShape sh ish ipts isb b1
                sx1 sy1 Hs Hi Ha Hc) as H1. cbv zeta in H1.
  pose proof (transform_result h shape initialShape sh ish ipts isb b2
                sx2 sy2 Hs Hi Ha Hc) as H2'. cbv zeta in H2'.
  set (h1 := set_shape shape _ (set_shape shape _ (set_array _ _ h))) in H1.
  assert (Hi1 : shapes h1 !! initialShape = Some ish).
  { unfold h1. simpl. rewrite !lookup_insert_ne by exact Hne. exact Hi. }
  assert (Ha1 : arrays h1 !! points ish = Some ipts).
  { unfold h1. simpl. rewrite lookup_insert_ne; [exact Ha|].
    apply fresh_array_ne with ipts. exact Ha. }
  assert (Hs1 : exists sh1, shapes h1 !! shape = Some sh1).
  { unfold h1. simpl. rewrite lookup_insert_eq. eauto. }
  destruct Hs1 as [sh1 Hs1].
  pose proof (transform_result h1 shape initialShape sh1 ish ipts isb b2
                sx2 sy2 Hs1 Hi1 Ha1 Hc) as H2. cbv zeta in H2.
  eexists _, _, _. split; [exact H1|]. split; [exact Hi1|].
  split; [unfold points_of; rewrite Hi1; exact Ha1|].
  do 3 (split; [reflexivity|]).
  split; [exact H2|]. split; [exact H2'|].
  unfold points_of. simpl. rewrite !lookup_insert_eq. simpl.
  rewrite ?lookup_insert_eq. split; reflexivity.
Qed.

(** *** hitTestBounds of a rotated shape *)

Lemma getRotatedBounds_result
    (h : Heap num) (shape : loc) (sh : DrawShape num) (pts : list (Vec num)) :
  shapes h !! shape = Some sh ->
  arrays h !! points sh = Some pts ->
  exists local h1,
    getBounds shape h = Some (translateBounds local (point sh), h1) /\
    getRotatedBounds shape h
    = Some (centred local pts (point sh) (rotation sh), h1) /\
    boundsCache h1 !! shape = Some local /\
    shapes h1 = shapes h /\ arrays h1 = arrays h /\
    rotatedCache h1 = rotatedCache h /\ pathCache h1 = pathCache h /\
    (forall c, boundsCache h !! shape = Some c -> local = c /\ h1 = h).
Proof.
  intros Hs Ha.
  assert (Hg : exists local h1,
             getBounds shape h = Some (translateBounds local (point sh), h1) /\
             boundsCache h1 !! shape = Some local /\
             shapes h1 = shapes h /\ arrays h1 = arrays h /\
             rotatedCache h1 = rotatedCache h /\ pathCache h1 = pathCache h /\
             (forall c, boundsCache h !! shape = Some c -> local = c /\ h1 = h)).
  { destruct (boundsCache h !! shape) as [c|] eqn:Hc.
    - exists c, h. split; [apply getBounds_hit; assumption|].
      repeat split; try assumption; congruence.
    - eexists _, _. split; [apply getBounds_miss; eassumption|].
      simpl. split; [apply lookup_insert_eq|].
      repeat split; discriminate. }
  destruct Hg as (local & h1 & Hg & Hrest).
  exists local, h1. split; [exact Hg|]. split; [|exact Hrest].
  unfold getRotatedBounds. step_m. rewrite Hs. simpl. rewrite Ha. simpl.
  rewrite Hg. reflexivity.
Qed.

Lemma hitTestBounds_rotated_hit
    (h : Heap num) (shape : loc) (sh : DrawShape num) (pts rotated : list (Vec num))
    (local brushBounds : Bounds num) :
  shapes h !! shape = Some sh ->
  arrays h !! points sh = Some pts ->
  (rotation sh === lit 0) = false ->
  boundsCache h !! shape = Some local ->
  rotatedCache h !! shape = Some rotated ->
  hitTestBounds shape brushBounds h
  = Some (boundsContain brushBounds (centred local pts (point sh) (rotation sh))
          || (0 <? length (intersectPolylineBounds rotated brushBounds))%nat, h).
Proof.
  intros Hs Ha Hr Hc Hrc.
  destruct (getRotatedBounds_result h shape sh pts Hs Ha)
    as (local' & h1 & _ & Hrb & _ & _ & _ & _ & _ & Hhit).
  destruct (Hhit local Hc) as [-> ->].
  unfold hitTestBounds, has. step_m. rewrite Hs. simpl. rewrite Hr, Hrb.
  rewrite Hrc. simpl. rewrite Hrc. reflexivity.
Qed.

(** X5: for a rotated shape, [hitTestBounds] computes the rotated sample
    points once per shape identity: the first call stores them (each point
    translated by the anchor, then rotated about the centre of the rotated
    bounds), and every later call, with any brush, tests the stored points
    and changes nothing. The stored points are reused as they are after an
    assignment to [shape.point], while the bounds follow the new anchor. *)
Theorem hitTestBounds_rotated_points_computed_once
    (h : Heap num) (shape : loc) (sh : DrawShape num) (pts : list (Vec num))
    (brushBounds : Bounds num) :
  shapes h !! shape = Some sh ->
  arrays h !! points sh = Some pts ->
  (rotation sh === lit 0) = false ->
  rotatedCache h !! shape = None ->
  exists local rotated h1,
    rotated
    = map (fun pt =>
             rotWith (vec_add pt (point sh))
               (getBoundsCenter (centred local pts (point sh) (rotation sh)))
               (rotation sh)) pts /\
    hitTestBounds shape brushBounds h
    = Some (boundsContain brushBounds
              (centred local pts (point sh) (rotation sh))
            || (0 <? length (intersectPolylineBounds rotated brushBounds))%nat,
            h1) /\
    rotatedCache h1 !! shape = Some rotated /\
    (forall brush2,
       hitTestBounds shape brush2 h1
       = Some (boundsContain brush2
                 (centred local pts (point sh) (rotation sh))
               || (0 <? length (intersectPolylineBounds rotated brush2))%nat,
               h1)) /\
    (forall p' brush2, exists h2,
       assign_point shape p' h1 = Some (tt, h2) /\
       hitTestBounds shape brush2 h2
       = Some (boundsContain brush2 (centred local pts p' (rotation sh))
               || (0 <? length (intersectPolylineBounds rotated brush2))%nat,
               h2)).
Proof.
  intros Hs Ha Hr Hrc.
  destruct (getRotatedBounds_result h shape sh pts Hs Ha)
    as (local & h0 & _ & Hrb & Hc0 & Hs0 & Ha0 & Hr0 & _ & _).
  set (rB := centred local pts (point sh) (rotation sh)) in *.
  set (rotated := map (fun pt => rotWith (vec_add pt (point sh))
                                   (getBoundsCenter rB) (rotation sh)) pts).
  set (h1 := rotatedCache_set shape rotated h0).
  assert (Hs1 : shapes h1 !! shape = Some sh) by (simpl; rewrite Hs0; exact Hs).
  assert (Ha1 : arrays h1 !! points sh = Some pts) by (simpl; rewrite Ha0; exact Ha).
  assert (Hc1 : boundsCache h1 !! shape = Some local) by exact Hc0.
  assert (Hrc1 : rotatedCache h1 !! shape = Some rotated)
    by (simpl; apply lookup_insert_eq).
  exists local, rotated, h1. split; [reflexivity|]. split.
  { unfold hitTestBounds, has. step_m. rewrite Hs. simpl. rewrite Hr, Hrb.
    rewrite Hr0, Hrc. simpl. rewrite Ha0, Ha. simpl.
    rewrite lookup_insert_eq. reflexivity. }
  split; [exact Hrc1|]. split.
  - intros brush2. apply hitTestBounds_rotated_hit; assumption.
  - intros p' brush2. exists (set_shape shape (set_point p' sh) h1).
    split; [unfold assign_point, bind, get_heap, lift, put_heap;
            rewrite Hs1; reflexivity|].
    apply (hitTestBounds_rotated_hit _ shape (set_point p' sh) pts rotated local);
      simpl; try assumption.
    apply lookup_insert_eq.
Qed.

(** *** render *)

Lemma render_hit
    (h : Heap num) (shape : loc) (sh : DrawShape num) (pts : list (Vec num))
    (d : string) :
  shapes h !! shape = Some sh ->
  arrays h !! points sh = Some pts ->
  (2 <= length pts)%nat ->
  pathCache h !! points sh = Some d ->
  render shape h
  = Some (path (id sh) (Some d) (stroke (getShapeStyle (style sh))), h).
Proof.
  intros Hs Ha Hlen Hc.
  assert (Hlt : (length pts <? 2)%nat = false) by (apply Nat.ltb_ge; exact Hlen).
  unfold render, has. step_m. rewrite Hs. simpl. rewrite Hc. simpl.
  rewrite Ha. simpl. rewrite Hlt, Hc. reflexivity.
Qed.

Lemma render_miss
    (h : Heap num) (shape : loc) (sh : DrawShape num) (pts : list (Vec num))
    (p1 : Vec num) :
  shapes h !! shape = Some sh ->
  arrays h !! points sh = Some pts ->
  (2 <= length pts)%nat ->
  pts !! 1%nat = Some p1 ->
  pathCache h !! points sh = None ->
  let d := getSvgPathFromStroke
             (getStroke pts
                (strokeOptions (getShapeStyle (style sh))
                   (if sentinel p1 then simulatePressureSettings
                    else realPressureSettings))) in
  render shape h
  = Some (path (id sh) (Some d) (stroke (getShapeStyle (style sh))),
          pathCache_set (points sh) d h).
Proof.
  intros Hs Ha Hlen Hp Hc d.
  assert (Hlt : (length pts <? 2)%nat = false) by (apply Nat.ltb_ge; exact Hlen).
  unfold render, renderPath, has. step_m. rewrite Hs. simpl. rewrite Hc. simpl.
  rewrite Hs. simpl. rewrite Ha. simpl. rewrite Hlt. simpl. rewrite Hp. simpl.
  rewrite Ha. simpl. rewrite Hlt. rewrite lookup_insert_eq. reflexivity.
Qed.

(** X6: for a shape with at least two sample points [render] returns a path
    element whose [d] is never undefined. When the points array has a cached
    path, that path is returned as it is, whatever the shape's style, and
    nothing changes; otherwise the path is generated and cached. Rendering
    again returns the same element and changes nothing. *)
Theorem render_path_is_cached
    (h : Heap num) (shape : loc) (sh : DrawShape num) (pts : list (Vec num)) :
  shapes h !! shape = Some sh ->
  arrays h !! points sh = Some pts ->
  (2 <= length pts)%nat ->
  exists d h1,
    render shape h
    = Some (path (id sh) (Some d) (stroke (getShapeStyle (style sh))), h1) /\
    pathCache h1 !! points sh = Some d /\
    (forall d0, pathCache h !! points sh = Some d0 -> d = d0 /\ h1 = h) /\
    render shape h1
    = Some (path (id sh) (Some d) (stroke (getShapeStyle (style sh))), h1).
Proof.
  intros Hs Ha Hlen.
  destruct (pathCache h !! points sh) as [d0|] eqn:Hc.
  - exists d0, h. split; [apply (render_hit h shape sh pts); assumption|].
    split; [exact Hc|]. split; [intros d1 [= <-]; split; reflexivity|].
    apply (render_hit h shape sh pts); assumption.
  - destruct pts as [|p0 [|p1 rest]] eqn:Hpts; simpl in Hlen; try lia.
    rewrite <- Hpts in *.
    assert (Hp : pts !! 1%nat = Some p1) by (rewrite Hpts; reflexivity).
    assert (Hlen' : (2 <= length pts)%nat) by (rewrite Hpts; simpl; lia).
    eexists _, _.
    split; [apply (render_miss h shape sh pts p1); assumption|].
    split; [simpl; apply lookup_insert_eq|]. split; [discriminate|].
    apply (render_hit _ shape sh pts); simpl; try assumption.
    apply lookup_insert_eq.
Qed.

(** *** applyStyles, then render or getBounds *)

Lemma applyStyles_result
    (h : Heap num) (shape : loc) (sh : DrawShape num) (pts : list (Vec num))
    (partialStyle : PartialStyles) :
  shapes h !! shape = Some sh ->
  arrays h !! points sh = Some pts ->
  let merged := spreadStyles (style sh) partialStyle in
  let a := fresh (dom (arrays h)) in
  let sh' :=
    set_points a
      (set_style (mkStyles (color merged) (size merged) Solid false) sh) in
  applyStyles shape partialStyle h
  = Some (tt, set_shape shape sh'
                (set_array a pts
                   (set_shape shape
                      (set_style (mkStyles (color merged) (size merged) Solid false)
                         sh) h))).
Proof.
  intros Hs Ha. unfold applyStyles. step_m. rewrite Hs. simpl.
  rewrite lookup_insert_eq. simpl. rewrite Ha. simpl.
  rewrite lookup_insert_eq. reflexivity.
Qed.

(** X7: after [applyStyles] the next [render] of a shape with at least two
    sample points generates its path anew, from the same sample points and
    the style just applied, even when the old points array had a cached path:
    the new points array is a key the path cache does not hold. *)
Theorem applyStyles_then_render_regenerates
    (h : Heap num) (shape : loc) (sh : DrawShape num) (pts : list (Vec num))
    (p1 : Vec num) (partialStyle : PartialStyles) :
  shapes h !! shape = Some sh ->
  arrays h !! points sh = Some pts ->
  (2 <= length pts)%nat ->
  pts !! 1%nat = Some p1 ->
  keys_live h ->
  exists h1 sh1 h2,
    applyStyles shape partialStyle h = Some (tt, h1) /\
    shapes h1 !! shape = Some sh1 /\
    style sh1
    = mkStyles (color (spreadStyles (style sh) partialStyle))
        (size (spreadStyles (style sh) partialStyle)) Solid false /\
    render shape h1
    = Some (path (id sh)
              (Some (getSvgPathFromStroke
                       (getStroke pts
                          (strokeOptions (getShapeStyle (style sh1))
                             (if sentinel p1 then simulatePressureSettings
                              else realPressureSettings)))))
              (stroke (getShapeStyle (style sh1))), h2).
Proof.
  intros Hs Ha Hlen Hp (_ & _ & Hlive).
  pose proof (applyStyles_result h shape sh pts partialStyle Hs Ha) as Hap.
  cbv zeta in Hap.
  set (st1 := mkStyles (color (spreadStyles (style sh) partialStyle))
                (size (spreadStyles (style sh) partialStyle)) Solid false) in *.
  set (a := fresh (dom (arrays h))) in *.
  set (sh1 := set_points a (set_style st1 sh)) in *.
  set (h1 := set_shape shape sh1 _) in Hap.
  assert (Hs1 : shapes h1 !! shape = Some sh1) by (simpl; apply lookup_insert_eq).
  assert (Ha1 : arrays h1 !! points sh1 = Some pts)
    by (simpl; apply lookup_insert_eq).
  assert (Hc1 : pathCache h1 !! points sh1 = None).
  { simpl. apply not_elem_of_dom. intros Hin. apply Hlive in Hin.
    exact (is_fresh (dom (arrays h)) Hin). }
  pose proof (render_miss h1 shape sh1 pts p1 Hs1 Ha1 Hlen Hp Hc1) as Hr.
  cbv zeta in Hr.
  exists h1, sh1. eexists. split; [exact Hap|]. split; [exact Hs1|].
  split; [reflexivity|]. exact Hr.
Qed.

(** X8: [applyStyles] does not move the shape: [getBounds] returns the same
    box before and after it, whether or not the box was cached, because the
    new points array holds the same values and the anchor is untouched. *)
Theorem applyStyles_keeps_bounds
    (h : Heap num) (shape : loc) (sh : DrawShape num) (pts : list (Vec num))
    (partialStyle : PartialStyles) :
  shapes h !! shape = Some sh ->
  arrays h !! points sh = Some pts ->
  exists b h0 h1 h2,
    getBounds shape h = Some (b, h0) /\
    applyStyles shape partialStyle h = Some (tt, h1) /\
    getBounds shape h1 = Some (b, h2).
Proof.
  intros Hs Ha.
  pose proof (applyStyles_result h shape sh pts partialStyle Hs Ha) as Hap.
  cbv zeta in Hap.
  set (h1 := set_shape shape _ _) in Hap.
  set (sh1 := set_points (fresh (dom (arrays h)))
                (set_style
                   (mkStyles (color (spreadStyles (style sh) partialStyle))
                      (size (spreadStyles (style sh) partialStyle)) Solid false)
                   sh)).
  assert (Hs1 : shapes h1 !! shape = Some sh1) by (simpl; apply lookup_insert_eq).
  assert (Ha1 : arrays h1 !! points sh1 = Some pts)
    by (simpl; apply lookup_insert_eq).
  destruct (boundsCache h !! shape) as [c|] eqn:Hc.
  - exists (translateBounds c (point sh)), h, h1, h1.
    split; [apply getBounds_hit; assumption|]. split; [exact Hap|].
    exact (getBounds_hit h1 shape sh1 c Hs1 Hc).
  - exists (translateBounds (getBoundsFromPoints pts None) (point sh)).
    eexists _, h1, _.
    split; [apply getBounds_miss; assumption|]. split; [exact Hap|].
    exact (getBounds_miss h1 shape sh1 pts Hs1 Hc Ha1).
Qed.

(** *** create *)

(** X9: [create] with no props always returns a new shape object, leaves
    every existing shape as it was, and the new shape has no sample points:
    it renders as a dot of radius [strokeWidth * 0.618] in the default style
    with the fill switched off, and no point test hits it. *)
Theorem create_without_props_is_a_dot
    (h : Heap num) (uuid : string) (defaultStyle : ShapeStyles) (p : Vec num) :
  let style0 :=
    mkStyles (color defaultStyle) (size defaultStyle) (dash defaultStyle) false in
  exists s h1 h2,
    create uuid defaultStyle noProps h = Some (s, h1) /\
    shapes h !! s = None /\
    (forall s' sh', shapes h !! s' = Some sh' -> shapes h1 !! s' = Some sh') /\
    points_of h1 s = Some [] /\
    render s h1
    = Some (circle uuid (strokeWidth (getShapeStyle style0) * lit 0.618)
              (stroke (getShapeStyle style0)), h2) /\
    hitTest s p h1 = Some (false, h1).
Proof.
  intros style0.
  set (a := fresh (dom (arrays h))).
  set (s := fresh (dom (shapes h))).
  set (sh := mkShape uuid false "Draw"%string "page0"%string (lit 0)
               (V2 (lit 0) (lit 0)) a (lit 0) false false false style0).
  set (h1 := set_shape s sh (set_array a [] h)).
  assert (Hs1 : shapes h1 !! s = Some sh) by (simpl; apply lookup_insert_eq).
  assert (Ha1 : arrays h1 !! points sh = Some []) by (simpl; apply lookup_insert_eq).
  assert (Hr : exists h2,
             render s h1
             = Some (circle uuid (strokeWidth (getShapeStyle style0) * lit 0.618)
                       (stroke (getShapeStyle style0)), h2)).
  { unfold render, renderPath, has. step_m. rewrite lookup_insert_eq. simpl.
    destruct (pathCache h !! a) as [d|] eqn:Hc; simpl.
    - rewrite lookup_insert_eq. simpl. eauto.
    - rewrite lookup_insert_eq. simpl. rewrite lookup_insert_eq. simpl.
      rewrite lookup_insert_eq. simpl. eauto. }
  destruct Hr as [h2 Hr].
  exists s, h1, h2. split; [reflexivity|].
  split; [apply not_elem_of_dom, is_fresh|]. split.
  { intros s' sh' Hs'. simpl. rewrite lookup_insert_ne; [exact Hs'|].
    intros <-. unfold s in Hs'.
    rewrite (proj1 (not_elem_of_dom _ _) (is_fresh (dom (shapes h)))) in Hs'.
    discriminate. }
  split; [unfold points_of; rewrite Hs1; exact Ha1|].
  split; [exact Hr|].
  unfold hitTest. step_m. rewrite lookup_insert_eq. simpl.
  rewrite lookup_insert_eq. reflexivity.
Qed.

(** *** transform, then render or getBounds *)

(** X15: resizing changes the pressure mode of the outline. After
    [transform], the next [render] of a shape with at least two sample points
    generates its path from the remapped points with the recorded-pressure
    settings ([simulatePressure] false, easing [t * t]), whatever pressure
    entries the snapshot's points carry, the [0.5] sentinel included. *)
Theorem transform_then_render_uses_real_pressure
    (h : Heap num) (shape initialShape : loc) (sh ish : DrawShape num)
    (ipts : list (Vec num)) (isb bounds : Bounds num) (scaleX scaleY : num) :
  shapes h !! shape = Some sh ->
  shapes h !! initialShape = Some ish ->
  arrays h !! points ish = Some ipts ->
  boundsCache h !! initialShape = Some isb ->
  (2 <= length ipts)%nat ->
  keys_live h ->
  exists h1 h2,
    transform shape bounds initialShape scaleX scaleY h = Some (tt, h1) /\
    render shape h1
    = Some (path (id sh)
              (Some (getSvgPathFromStroke
                       (getStroke (map (remap bounds isb scaleX scaleY) ipts)
                          (strokeOptions (getShapeStyle (style sh))
                             realPressureSettings))))
              (stroke (getShapeStyle (style sh))), h2).
Proof.
  intros Hs Hi Ha Hc Hlen (_ & _ & Hlive).
  pose proof (transform_result h shape initialShape sh ish ipts isb bounds
                scaleX scaleY Hs Hi Ha Hc) as Ht.
  cbv zeta in Ht.
  set (newpts := map (remap bounds isb scaleX scaleY) ipts) in *.
  set (a := fresh (dom (arrays h))) in *.
  set (sh1 := set_point _ (set_points a sh)) in Ht.
  set (h1 := set_shape shape sh1 _) in Ht.
  assert (Hs1 : shapes h1 !! shape = Some sh1) by (simpl; apply lookup_insert_eq).
  assert (Ha1 : arrays h1 !! points sh1 = Some newpts)
    by (simpl; apply lookup_insert_eq).
  assert (Hc1 : pathCache h1 !! points sh1 = None).
  { simpl. apply not_elem_of_dom. intros Hin. apply Hlive in Hin.
    exact (is_fresh (dom (arrays h)) Hin). }
  assert (Hlen1 : (2 <= length newpts)%nat)
    by (unfold newpts; rewrite length_map; exact Hlen).
  destruct ipts as [|p0 [|p1 rest]]; simpl in Hlen; try lia.
  pose proof (render_miss h1 shape sh1 newpts
                (remap bounds isb scaleX scaleY p1) Hs1 Ha1 Hlen1 eq_refl Hc1)
    as Hr.
  cbv zeta in Hr.
  exists h1. eexists. split; [exact Ht|]. exact Hr.
Qed.

(** X16: [transform] does not refresh the cached box of the shape it
    transforms. If [getBounds] had cached a box for that shape object, then
    after the transform [getBounds] still answers with that box, moved to the
    new anchor, and computes nothing. *)
Theorem transform_keeps_cached_box_of_shape
    (h : Heap num) (shape initialShape : loc) (sh ish : DrawShape num)
    (ipts : list (Vec num)) (isb old bounds : Bounds num) (scaleX scaleY : num) :
  shapes h !! shape = Some sh ->
  shapes h !! initialShape = Some ish ->
  arrays h !! points ish = Some ipts ->
  boundsCache h !! initialShape = Some isb ->
  boundsCache h !! shape = Some old ->
  exists h1 sh1,
    transform shape bounds initialShape scaleX scaleY h = Some (tt, h1) /\
    shapes h1 !! shape = Some sh1 /\
    point sh1
    = vec_sub (V2 (minX bounds) (minY bounds))
        (V2 (minX (getBoundsFromPoints
                     (map (remap bounds isb scaleX scaleY) ipts) None))
            (minY (getBoundsFromPoints
                     (map (remap bounds isb scaleX scaleY) ipts) None))) /\
    getBounds shape h1 = Some (translateBounds old (point sh1), h1).
Proof.
  intros Hs Hi Ha Hc Hold.
  pose proof (transform_result h shape initialShape sh ish ipts isb bounds
                scaleX scaleY Hs Hi Ha Hc) as Ht.
  cbv zeta in Ht.
  set (sh1 := set_point _ (set_points _ sh)) in Ht.
  set (h1 := set_shape shape sh1 _) in Ht.
  assert (Hs1 : shapes h1 !! shape = Some sh1) by (simpl; apply lookup_insert_eq).
  exists h1, sh1. split; [exact Ht|]. split; [exact Hs1|].
  split; [reflexivity|].
  exact (getBounds_hit h1 shape sh1 old Hs1 Hold).
Qed.

End Composition.

Section ExactGeometry.
Context {U : Utils R}.
Local Open Scope js_scope.

(** *** getRotatedBounds and getCenter *)

Lemma centred_center (local : Bounds R) (pts : list (Vec R)) (anchor : Vec R)
    (r : R) :
  getBoundsCenter (centred local pts anchor r)
  = getBoundsCenter (translateBounds local anchor).
Proof.
  unfold centred, getBoundsCenter, translateBounds, vec_sub. simpl.
  f_equal; ring.
Qed.

(** X10: for every rotation, the box [getRotatedBounds] returns has the
    centre of the box [getBounds] returns and the width and height of the
    pre-rotated box (in exact arithmetic): rotation changes the extent of a
    shape's bounds, never where they are centred. *)
Theorem getRotatedBounds_keeps_center
    (h : Heap R) (shape : loc) (sh : DrawShape R) (pts : list (Vec R)) :
  shapes h !! shape = Some sh ->
  arrays h !! points sh = Some pts ->
  exists b rb h1,
    getBounds shape h = Some (b, h1) /\
    getRotatedBounds shape h = Some (rb, h1) /\
    getBoundsCenter rb = getBoundsCenter b /\
    width rb = width (getBoundsFromPoints pts (Some (rotation sh))) /\
    height rb = height (getBoundsFromPoints pts (Some (rotation sh))).
Proof.
  intros Hs Ha.
  destruct (getRotatedBounds_result h shape sh pts Hs Ha)
    as (local & h1 & Hg & Hrb & _).
  eexists _, _, _. split; [exact Hg|]. split; [exact Hrb|].
  split; [apply centred_center|]. split; reflexivity.
Qed.

(** X11: [getCenter] is the centre of the unrotated bounds, for every
    rotation (in exact arithmetic); like [getBounds] it leaves the box of the
    shape in the cache. *)
Theorem getCenter_is_center_of_getBounds
    (h : Heap R) (shape : loc) (sh : DrawShape R) (pts : list (Vec R)) :
  shapes h !! shape = Some sh ->
  arrays h !! points sh = Some pts ->
  exists b h1,
    getBounds shape h = Some (b, h1) /\
    getCenter shape h = Some (getBoundsCenter b, h1) /\
    is_Some (boundsCache h1 !! shape).
Proof.
  intros Hs Ha.
  destruct (getRotatedBounds_result h shape sh pts Hs Ha)
    as (local & h1 & Hg & Hrb & Hc & _).
  eexists _, _. split; [exact Hg|]. split; [|eauto].
  unfold getCenter. step_m. rewrite Hrb.
  rewrite <- (centred_center local pts (point sh) (rotation sh)).
  reflexivity.
Qed.

(** *** hitTest under translation *)

(** X12: [hitTest] depends on the query point and the anchor only through
    their difference: moving the shape (an assignment to [shape.point]) and
    the query point by the same vector does not change the answer (in exact
    arithmetic). *)
Theorem hitTest_translation_invariant
    (h : Heap R) (shape : loc) (sh : DrawShape R) (pts : list (Vec R))
    (p delta : Vec R) :
  shapes h !! shape = Some sh ->
  arrays h !! points sh = Some pts ->
  exists hit h1,
    hitTest shape p h = Some (hit, h) /\
    assign_point shape (vec_add (point sh) delta) h = Some (tt, h1) /\
    hitTest shape (vec_add p delta) h1 = Some (hit, h1).
Proof.
  intros Hs Ha.
  exists (existsb
            (hitTest_callback pts (vec_sub p (point sh))
               (strokeWidth (getShapeStyle (style sh)))) (imap pair pts)).
  exists (set_shape shape (set_point (vec_add (point sh) delta) sh) h).
  split; [unfold hitTest; step_m; rewrite Hs; simpl; rewrite Ha; reflexivity|].
  split; [unfold assign_point; step_m; rewrite Hs; reflexivity|].
  unfold hitTest. step_m. rewrite lookup_insert_eq. simpl. rewrite Ha. simpl.
  assert (Hv : vec_sub (vec_add p delta) (vec_add (point sh) delta)
               = vec_sub p (point sh)).
  { unfold vec_sub, vec_add. simpl. f_equal; ring. }
  rewrite Hv. reflexivity.
Qed.

(** *** transform fills the target box *)

Lemma greatest_of_images (c : Vec R -> R) (g : R -> R) (F : Vec R -> Vec R)
    (ipts : list (Vec R)) (e m : R) :
  (forall p, c (F p) = g (c p)) ->
  (exists p, p ∈ ipts /\ c p = e) ->
  (forall p, p ∈ ipts -> (g (c p) <= g e)%R) ->
  (forall q, q ∈ map F ipts -> (c q <= m)%R) ->
  (exists q, q ∈ map F ipts /\ c q = m) ->
  m = g e.
Proof.
  intros HF (pe & Hpe & Hce) Hmono Hup (q & Hq & Hcq).
  apply elem_of_map in Hq. destruct Hq as (p & Hp & ->).
  apply Rle_antisym.
  - rewrite <- Hcq, HF. apply Hmono. exact Hp.
  - rewrite <- Hce, <- HF. apply Hup. apply elem_of_map. eauto.
Qed.

Lemma greatest_remapped (c : Vec R -> R) (F : Vec R -> Vec R)
    (ipts : list (Vec R)) (extent' extent scale lo m : R) :
  (0 < extent)%R -> (0 < extent')%R ->
  (forall p, c (F p) = remap1 extent' extent scale (c p)) ->
  (forall p, p ∈ ipts -> (lo <= c p <= lo + extent)%R) ->
  (exists p, p ∈ ipts /\ c p = lo) ->
  (exists p, p ∈ ipts /\ c p = (lo + extent)%R) ->
  (forall q, q ∈ map F ipts -> (c q <= m)%R) ->
  (exists q, q ∈ map F ipts /\ c q = m) ->
  m = remap1 extent' extent scale
        (if scale <? lit 0 then lo else (lo + extent)%R).
Proof.
  intros HW HW' HF Hin Hlo Hhi Hup Hatt.
  apply (greatest_of_images c (remap1 extent' extent scale) F ipts);
    try assumption.
  - destruct (scale <? lit 0); assumption.
  - intros p Hp. specialize (Hin p Hp). unfold remap1.
    destruct (scale <? lit 0).
    + rewrite lit_1. apply flipped_antitone; lra.
    + apply scaled_monotone; lra.
Qed.

Lemma remap1_span (extent' extent scale lo : R) :
  (0 < extent)%R -> (0 < extent')%R ->
  (remap1 extent' extent scale (if scale <? lit 0 then lo else (lo + extent)%R)
   - remap1 extent' extent scale
       (if scale <? lit 0 then (lo + extent)%R else lo))%R
  = extent'.
Proof.
  intros HW HW'. unfold remap1.
  destruct (scale <? lit 0); rewrite ?lit_1; simpl; field; lra.
Qed.

(** X13: [transform] fills the target box. When the cached box is the box of
    the snapshot's points and both boxes have positive width and height, the
    bounds of the transformed shape, computed afresh by [getBounds], are the
    target box: same min corner, same width, same height, for either sign of
    either scale factor (in exact arithmetic, the bounds constructor
    computing the box of a point set). *)
Theorem transform_fills_target
    (h : Heap R) (shape initialShape : loc) (sh ish : DrawShape R)
    (ipts : list (Vec R)) (isb bounds : Bounds R) (scaleX scaleY : R) :
  shapes h !! shape = Some sh ->
  shapes h !! initialShape = Some ish ->
  arrays h !! points ish = Some ipts ->
  boundsCache h !! initialShape = Some isb ->
  boundsCache h !! shape = None ->
  (forall l, l <> [] -> box_encloses (getBoundsFromPoints l None) l) ->
  box_encloses isb ipts ->
  (0 < width isb)%R -> (0 < height isb)%R ->
  (0 < width bounds)%R -> (0 < height bounds)%R ->
  exists h' h'',
    transform shape bounds initialShape scaleX scaleY h = Some (tt, h') /\
    getBounds shape h' = Some (bounds, h'').
Proof.
  intros Hs Hi Ha Hc Hmiss Hbox Hisb HW HH HW' HH'.
  pose proof (transform_result h shape initialShape sh ish ipts isb bounds
                scaleX scaleY Hs Hi Ha Hc) as Ht.
  cbv zeta in Ht.
  set (newpts := map (remap bounds isb scaleX scaleY) ipts) in *.
  set (nb := getBoundsFromPoints newpts None) in *.
  set (h' := set_shape shape _ _) in Ht.
  assert (Hne : newpts <> []).
  { destruct Hisb as (_ & (q & Hq & _) & _). unfold newpts.
    destruct ipts; [inversion Hq|discriminate]. }
  destruct (Hbox newpts Hne) as (Hin' & Hx0' & Hx1' & Hy0' & Hy1').
  destruct Hisb as (Hin & Hx0 & Hx1 & Hy0 & Hy1).
  assert (Hmx : minX nb
                = remap1 (width bounds) (width isb) scaleX
                    (if scaleX <? lit 0 then (minX isb + width isb)%R
                     else minX isb)).
  { apply (least_remapped vx (remap bounds isb scaleX scaleY) ipts);
      try assumption.
    - intros q. reflexivity.
    - intros q Hq. apply (Hin q Hq).
    - intros q Hq. apply (Hin' q Hq). }
  assert (Hmy : minY nb
                = remap1 (height bounds) (height isb) scaleY
                    (if scaleY <? lit 0 then (minY isb + height isb)%R
                     else minY isb)).
  { apply (least_remapped vy (remap bounds isb scaleX scaleY) ipts);
      try assumption.
    - intros q. reflexivity.
    - intros q Hq. apply (Hin q Hq).
    - intros q Hq. apply (Hin' q Hq). }
  assert (HMx : (minX nb + width nb)%R
                = remap1 (width bounds) (width isb) scaleX
                    (if scaleX <? lit 0 then minX isb
                     else (minX isb + width isb)%R)).
  { apply (greatest_remapped vx (remap bounds isb scaleX scaleY) ipts);
      try assumption.
    - intros q. reflexivity.
    - intros q Hq. apply (Hin q Hq).
    - intros q Hq. apply (Hin' q Hq). }
  assert (HMy : (minY nb + height nb)%R
                = remap1 (height bounds) (height isb) scaleY
                    (if scaleY <? lit 0 then minY isb
                     else (minY isb + height isb)%R)).
  { apply (greatest_remapped vy (remap bounds isb scaleX scaleY) ipts);
      try assumption.
    - intros q. reflexivity.
    - intros q Hq. apply (Hin q Hq).
    - intros q Hq. apply (Hin' q Hq). }
  assert (Hw : width nb = width bounds).
  { pose proof (remap1_span (width bounds) (width isb) scaleX (minX isb) HW HW').
    lra. }
  assert (Hh : height nb = height bounds).
  { pose proof (remap1_span (height bounds) (height isb) scaleY (minY isb) HH HH').
    lra. }
  assert (Hs' : exists sh', shapes h' !! shape = Some sh' /\
                  arrays h' !! points sh' = Some newpts /\
                  point sh' = vec_sub (V2 (minX bounds) (minY bounds))
                                (V2 (minX nb) (minY nb))).
  { eexists. split; [unfold h'; simpl; apply lookup_insert_eq|].
    split; [simpl; apply lookup_insert_eq|reflexivity]. }
  destruct Hs' as (sh' & Hs' & Ha' & Hp').
  exists h'. eexists. split; [exact Ht|].
  rewrite (getBounds_miss h' shape sh' newpts Hs' Hmiss Ha').
  fold nb. rewrite Hp'. clearbody nb. f_equal. f_equal.
  apply Bounds_eq; simpl; lra.
Qed.

End ExactGeometry.

(** ** The page item submenu *)

(** X14: the submenu never offers a move out of the list, nor the deletion of
    the only page. For an item at a valid index, a move is offered exactly to
    the neighbouring indices that exist, always for the item's own page, and
    the delete action is offered exactly when the list has more than one
    page. *)
Theorem PageItemSubmenu_moves_in_range
    (index : Z) (itemId : string) (listSize : Z) (onRename : bool)
    (pages MAX_PAGES : Z) :
  (0 <= index < listSize)%Z ->
  let menu := PageItemSubmenu index itemId listSize onRename pages MAX_PAGES in
  (forall pageId from to,
     In (MovePage pageId from to) (offered menu) <->
     pageId = itemId /\ from = index /\
     (to = index - 1 \/ to = index + 1)%Z /\ (0 <= to < listSize)%Z) /\
  (forall pageId,
     In (DeletePage pageId) (offered menu) <->
     pageId = itemId /\ (1 < listSize)%Z).
Proof.
  intros Hidx menu. unfold menu, PageItemSubmenu, offered.
  destruct (Z.ltb_spec 0 index) as [Hup|Hup];
    destruct (Z.ltb_spec index (listSize - 1)) as [Hdn|Hdn];
    destruct (Z.ltb_spec 1 listSize) as [Hdel|Hdel];
    destruct onRename; simpl; split;
    intros; split; intros Hin;
    repeat match goal with
      | H : _ \/ _ |- _ => destruct H
      | H : False |- _ => destruct H
      | H : _ /\ _ |- _ => destruct H
      | H : MovePage _ _ _ = MovePage _ _ _ |- _ => injection H as <- <- <-
      | H : DeletePage _ = DeletePage _ |- _ => injection H as <-
      | H : _ = _ |- _ => discriminate H
      end;
    subst; try lia; try (repeat split; lia); auto 10.
Qed.

(** ** Instances of the further properties *)

Section MoreConcrete.
Local Open Scope js_scope.

Lemma keys_live_no_cache {num} (h : Heap num) :
  boundsCache h = ∅ -> rotatedCache h = ∅ -> pathCache h = ∅ -> keys_live h.
Proof.
  intros Hb Hr Hp. unfold keys_live. rewrite Hb, Hr, Hp.
  rewrite !dom_empty_L. repeat split; apply empty_subseteq.
Qed.

(** X1 on a session: the snapshot's points array is what it was. *)
Lemma run_never_overwrites_witness :
  exists h',
    run session dragHeap = Some (tt, h') /\
    arrays h' !! 1%positive
    = Some [V3 (lit 0) (lit 0) (lit 0.5); V3 (lit 30) (lit 40) (lit 0.5)].
Proof.
  destruct (run session dragHeap) as [[[] h']|] eqn:Hr.
  - exists h'. split; [reflexivity|].
    apply (run_never_overwrites session dragHeap h' Hr). reflexivity.
  - vm_compute in Hr. discriminate Hr.
Defined.

(** X2 at the diagonal stroke, probed next to its start. *)
Lemma hitTest_true_iff_near_a_segment_witness :
  exists hit,
    hitTest 1%positive (V2 (lit 101) (lit 101)) (dragHeap : Heap float)
    = Some (hit, dragHeap).
Proof.
  destruct (hitTest_true_iff_near_a_segment (dragHeap : Heap float) 1%positive
              (drawShape (V2 (lit 100) (lit 100)) 1%positive (lit 0))
              [V3 (lit 0) (lit 0) (lit 0.5); V3 (lit 30) (lit 40) (lit 0.5)]
              (V2 (lit 101) (lit 101)) eq_refl eq_refl)
    as (hit & Hh & _).
  exists hit. exact Hh.
Defined.

(** X3 at the diagonal stroke before any [getBounds]: the transform throws
    and the heap is as it was. *)
Lemma transform_without_cached_box_witness :
  transform 1%positive (mkBounds (lit 100) (lit 100) (lit 60) (lit 80))
    2%positive (lit 2) (lit 2) (dragHeap : Heap float) = None /\
  transform_traced 1%positive (mkBounds (lit 100) (lit 100) (lit 60) (lit 80))
    2%positive (lit 2) (lit 2) (dragHeap : Heap float) = (dragHeap, None).
Proof.
  apply (transform_without_cached_box (dragHeap : Heap float)
           1%positive 2%positive
           (drawShape (V2 (lit 100) (lit 100)) 1%positive (lit 0))
           (drawShape (V2 (lit 100) (lit 100)) 1%positive (lit 0))
           [V3 (lit 0) (lit 0) (lit 0.5); V3 (lit 30) (lit 40) (lit 0.5)]
           (mkBounds (lit 100) (lit 100) (lit 60) (lit 80)) (lit 2) (lit 2)
           eq_refl eq_refl eq_refl eq_refl).
  discriminate.
Defined.

(** X4 at the diagonal stroke: a resize to 45 by 60, then one to 60 by 80. *)
Lemma transform_again_from_snapshot_witness :
  exists h1 h2 h2',
    transform 1%positive (mkBounds (lit 100) (lit 100) (lit 45) (lit 60))
      2%positive (lit 1.5) (lit 1.5) (dragHeapCached : Heap float)
    = Some (tt, h1) /\
    transform 1%positive (mkBounds (lit 100) (lit 100) (lit 60) (lit 80))
      2%positive (lit 2) (lit 2) h1 = Some (tt, h2) /\
    transform 1%positive (mkBounds (lit 100) (lit 100) (lit 60) (lit 80))
      2%positive (lit 2) (lit 2) (dragHeapCached : Heap float)
    = Some (tt, h2') /\
    points_of h2 1%positive = points_of h2' 1%positive.
Proof.
  destruct (transform_again_from_snapshot (dragHeapCached : Heap float)
              1%positive 2%positive
              (drawShape (V2 (lit 100) (lit 100)) 1%positive (lit 0))
              (drawShape (V2 (lit 100) (lit 100)) 1%positive (lit 0))
              [V3 (lit 0) (lit 0) (lit 0.5); V3 (lit 30) (lit 40) (lit 0.5)]
              (mkBounds (lit 0) (lit 0) (lit 30) (lit 40))
              (mkBounds (lit 100) (lit 100) (lit 45) (lit 60))
              (mkBounds (lit 100) (lit 100) (lit 60) (lit 80))
              (lit 1.5) (lit 1.5) (lit 2) (lit 2)
              eq_refl eq_refl eq_refl eq_refl)
    as (h1 & h2 & h2' & H1 & _ & _ & _ & _ & _ & H2 & H2' & Hp & _).
  - discriminate.
  - exists h1, h2, h2'. repeat split; assumption.
Defined.

(** X5 at the turned stroke. *)
Lemma hitTestBounds_rotated_points_computed_once_witness :
  exists (rotated : list (Vec float)) h1,
    option_map snd (hitTestBounds 1%positive strokeBrush (turnedHeap : Heap float))
    = Some h1 /\
    rotatedCache h1 !! 1%positive = Some rotated /\
    option_map snd (hitTestBounds 1%positive originBrush h1) = Some h1.
Proof.
  destruct (hitTestBounds_rotated_points_computed_once
              (turnedHeap : Heap float) 1%positive
              (drawShape (V2 (lit 100) (lit 100)) 1%positive (lit 1))
              [V3 (lit 0) (lit 0) (lit 0.5); V3 (lit 30) (lit 40) (lit 0.5)]
              strokeBrush eq_refl eq_refl)
    as (local & rotated & h1 & _ & Hfirst & Hrc & Hnext & _).
  - vm_compute. reflexivity.
  - reflexivity.
  - exists rotated, h1. split; [rewrite Hfirst; reflexivity|].
    split; [exact Hrc|]. rewrite (Hnext originBrush). reflexivity.
Defined.

(** X6 at the horizontal stroke. *)
Lemma render_path_is_cached_witness :
  exists d h1,
    render 1%positive (strokeHeap : Heap float)
    = Some (path "shape0" (Some d) "Black", h1) /\
    render 1%positive h1 = Some (path "shape0" (Some d) "Black", h1).
Proof.
  destruct (render_path_is_cached (strokeHeap : Heap float) 1%positive
              (drawShape (V2 (lit 100) (lit 100)) 1%positive (lit 0))
              [V3 (lit 0) (lit 0) (lit 0.5); V3 (lit 50) (lit 0) (lit 0.5)]
              eq_refl eq_refl (le_n 2))
    as (d & h1 & Hr & _ & _ & Hr').
  exists d, h1. split; assumption.
Defined.

(** X7 at the horizontal stroke, restyled to the large size. *)
Lemma applyStyles_then_render_regenerates_witness :
  exists h1 sh1 h2 d,
    applyStyles 1%positive filledDashed (strokeHeap : Heap float) = Some (tt, h1) /\
    shapes h1 !! 1%positive = Some sh1 /\
    size (style sh1) = "Large"%string /\
    render 1%positive h1 = Some (path "shape0" (Some d) "Black", h2).
Proof.
  destruct (applyStyles_then_render_regenerates (strokeHeap : Heap float)
              1%positive
              (drawShape (V2 (lit 100) (lit 100)) 1%positive (lit 0))
              [V3 (lit 0) (lit 0) (lit 0.5); V3 (lit 50) (lit 0) (lit 0.5)]
              (V3 (lit 50) (lit 0) (lit 0.5)) filledDashed
              eq_refl eq_refl (le_n 2) eq_refl
              (keys_live_no_cache strokeHeap eq_refl eq_refl eq_refl))
    as (h1 & sh1 & h2 & Hap & Hs1 & Hst & Hr).
  exists h1, sh1, h2. eexists.
  split; [exact Hap|]. split; [exact Hs1|].
  split; [rewrite Hst; reflexivity|]. rewrite Hr, Hst. reflexivity.
Defined.

(** X8 at the horizontal stroke. *)
Lemma applyStyles_keeps_bounds_witness :
  exists (b : Bounds float) h0 h1 h2,
    getBounds 1%positive strokeHeap = Some (b, h0) /\
    applyStyles 1%positive filledDashed strokeHeap = Some (tt, h1) /\
    getBounds 1%positive h1 = Some (b, h2).
Proof.
  apply (applyStyles_keeps_bounds (strokeHeap : Heap float) 1%positive
           (drawShape (V2 (lit 100) (lit 100)) 1%positive (lit 0))
           [V3 (lit 0) (lit 0) (lit 0.5); V3 (lit 50) (lit 0) (lit 0.5)]
           filledDashed eq_refl eq_refl).
Defined.

(** X15 at the diagonal stroke, resized to twice its size. *)
Lemma transform_then_render_uses_real_pressure_witness :
  exists h1 h2 d,
    transform 1%positive (mkBounds (lit 100) (lit 100) (lit 60) (lit 80))
      2%positive (lit 2) (lit 2) (dragHeapCached : Heap float) = Some (tt, h1) /\
    render 1%positive h1 = Some (path "shape0" (Some d) "Black", h2).
Proof.
  destruct (transform_then_render_uses_real_pressure
              (dragHeapCached : Heap float) 1%positive 2%positive
              (drawShape (V2 (lit 100) (lit 100)) 1%positive (lit 0))
              (drawShape (V2 (lit 100) (lit 100)) 1%positive (lit 0))
              [V3 (lit 0) (lit 0) (lit 0.5); V3 (lit 30) (lit 40) (lit 0.5)]
              (mkBounds (lit 0) (lit 0) (lit 30) (lit 40))
              (mkBounds (lit 100) (lit 100) (lit 60) (lit 80)) (lit 2) (lit 2)
              eq_refl eq_refl eq_refl eq_refl (le_n 2))
    as (h1 & h2 & Ht & Hr).
  - unfold keys_live. simpl.
    rewrite !dom_empty_L, dom_singleton_L, dom_insert_L.
    repeat split; set_solver.
  - exists h1, h2. eexists. split; [exact Ht|exact Hr].
Defined.

(** X16 at the diagonal stroke, with the snapshot's box cached for the dragged
    object itself. *)
Lemma transform_keeps_cached_box_of_shape_witness :
  exists h1 sh1,
    transform 2%positive (mkBounds (lit 100) (lit 100) (lit 60) (lit 80))
      2%positive (lit 2) (lit 2) (dragHeapCached : Heap float) = Some (tt, h1) /\
    shapes h1 !! 2%positive = Some sh1 /\
    getBounds 2%positive h1
    = Some (translateBounds (mkBounds (lit 0) (lit 0) (lit 30) (lit 40))
              (point sh1), h1).
Proof.
  destruct (transform_keeps_cached_box_of_shape
              (dragHeapCached : Heap float) 2%positive 2%positive
              (drawShape (V2 (lit 100) (lit 100)) 1%positive (lit 0))
              (drawShape (V2 (lit 100) (lit 100)) 1%positive (lit 0))
              [V3 (lit 0) (lit 0) (lit 0.5); V3 (lit 30) (lit 40) (lit 0.5)]
              (mkBounds (lit 0) (lit 0) (lit 30) (lit 40))
              (mkBounds (lit 0) (lit 0) (lit 30) (lit 40))
              (mkBounds (lit 100) (lit 100) (lit 60) (lit 80)) (lit 2) (lit 2)
              eq_refl eq_refl eq_refl eq_refl eq_refl)
    as (h1 & sh1 & Ht & Hs1 & _ & Hg).
  exists h1, sh1. repeat split; assumption.
Defined.

(** X10 at the turned stroke, in real arithmetic. *)
Lemma getRotatedBounds_keeps_center_witness :
  exists (b rb : Bounds R) h1,
    getBounds 1%positive turnedHeap = Some (b, h1) /\
    getRotatedBounds 1%positive turnedHeap = Some (rb, h1) /\
    getBoundsCenter rb = getBoundsCenter b.
Proof.
  destruct (getRotatedBounds_keeps_center (U := sampleUtils)
              (turnedHeap : Heap R) 1%positive
              (drawShape (V2 (lit 100) (lit 100)) 1%positive (lit 1))
              [V3 (lit 0) (lit 0) (lit 0.5); V3 (lit 30) (lit 40) (lit 0.5)]
              eq_refl eq_refl)
    as (b & rb & h1 & Hg & Hr & Hc & _).
  exists b, rb, h1. repeat split; assumption.
Defined.

(** X11 at the turned stroke, in real arithmetic. *)
Lemma getCenter_is_center_of_getBounds_witness :
  exists (b : Bounds R) h1,
    getBounds 1%positive turnedHeap = Some (b, h1) /\
    getCenter 1%positive turnedHeap = Some (getBoundsCenter b, h1).
Proof.
  destruct (getCenter_is_center_of_getBounds (U := sampleUtils)
              (turnedHeap : Heap R) 1%positive
              (drawShape (V2 (lit 100) (lit 100)) 1%positive (lit 1))
              [V3 (lit 0) (lit 0) (lit 0.5); V3 (lit 30) (lit 40) (lit 0.5)]
              eq_refl eq_refl)
    as (b & h1 & Hg & Hc & _).
  exists b, h1. split; assumption.
Defined.

(** X12 at the diagonal stroke, moved by [[7, -3]]. *)
Lemma hitTest_translation_invariant_witness :
  exists hit (h1 : Heap R),
    hitTest 1%positive (V2 (lit 101) (lit 101)) dragHeap = Some (hit, dragHeap) /\
    hitTest 1%positive
      (vec_add (V2 (lit 101) (lit 101)) (V2 (lit 7) (lit (-3)))) h1
    = Some (hit, h1).
Proof.
  destruct (hitTest_translation_invariant (U := sampleUtils)
              (dragHeap : Heap R) 1%positive
              (drawShape (V2 (lit 100) (lit 100)) 1%positive (lit 0))
              [V3 (lit 0) (lit 0) (lit 0.5); V3 (lit 30) (lit 40) (lit 0.5)]
              (V2 (lit 101) (lit 101)) (V2 (lit 7) (lit (-3)))
              eq_refl eq_refl)
    as (hit & h1 & H0 & _ & H1).
  exists hit, h1. split; assumption.
Defined.

(** X13 at the diagonal stroke, flipped horizontally into a 60 by 80 box. *)
Lemma transform_fills_target_witness :
  exists h' h'',
    transform 1%positive (mkBounds (lit 100) (lit 100) (lit 60) (lit 80))
      2%positive (lit (-1)) (lit 1) (dragHeapCached : Heap R) = Some (tt, h') /\
    getBounds 1%positive h'
    = Some (mkBounds (lit 100) (lit 100) (lit 60) (lit 80), h'').
Proof.
  apply (transform_fills_target (U := sampleUtils)
           (dragHeapCached : Heap R) 1%positive 2%positive
           (drawShape (V2 (lit 100) (lit 100)) 1%positive (lit 0))
           (drawShape (V2 (lit 100) (lit 100)) 1%positive (lit 0))
           [V3 (lit 0) (lit 0) (lit 0.5); V3 (lit 30) (lit 40) (lit 0.5)]
           (mkBounds (lit 0) (lit 0) (lit 30) (lit 40))
           (mkBounds (lit 100) (lit 100) (lit 60) (lit 80))
           (lit (-1)) (lit 1)
           eq_refl eq_refl eq_refl eq_refl eq_refl
           sample_box_encloses dragBox_encloses
           (lit_positive 30) (lit_positive 40)
           (lit_positive 60) (lit_positive 80)).
Defined.

(** X14 for the second of three pages. *)
Lemma PageItemSubmenu_moves_in_range_witness :
  In (MovePage "page:b" 1 0)
    (offered (PageItemSubmenu 1 "page:b" 3 true 3 40)) /\
  In (MovePage "page:b" 1 2)
    (offered (PageItemSubmenu 1 "page:b" 3 true 3 40)) /\
  ~ In (MovePage "page:b" 1 3)
      (offered (PageItemSubmenu 1 "page:b" 3 true 3 40)).
Proof.
  pose proof (PageItemSubmenu_moves_in_range 1 "page:b" 3 true 3 40
                (conj (Z.le_0_1) (eq_refl : (1 ?= 3)%Z = Lt))) as [Hm _].
  split; [apply Hm; repeat split; auto; lia|].
  split; [apply Hm; repeat split; auto; lia|].
  intros Hin. apply Hm in Hin. lia.
Defined.

End MoreConcrete.
